(** * loopwright: the [learn] command's directory walk and the context-file loader

    A shallow embedding of [src/commands/learn.ts] (project analysis:
    [shouldIgnoreDir], [detectFileType], [detectProjectTypes],
    [scanDirectory], [analyzeProject], [executeLearnCommand]) and of the
    context-file loader ([validateContextFileFormat], [loadContextFile],
    [loadContextFiles]), followed by the properties the specification
    states about them.

    Conventions of the embedding.
    - A JavaScript string is a [string] holding its UTF-8 bytes.  Every
      pattern the code compares against is ASCII, so suffix, prefix and
      equality tests agree with the UTF-16 ones.
    - A [number] used as a counter is a [nat]; sizes and clock readings
      are [Z].
    - A function that can throw returns an [outcome]; [try]/[catch] is a
      match on it.
    - The file system is a snapshot: the directory tree below the root is
      a value of [Dirent]; a directory whose [readdirSync] throws carries
      the listing [None]. *)

From Stdlib Require Import Ascii String ZArith Lia.
From stdpp Require Import gmap strings list fin_maps pretty.

Open Scope string_scope.
Set Warnings "-abstract-large-number".

(** ** Thrown errors *)

Inductive outcome (A : Type) : Type :=
| Returned (a : A)
| Threw (message : string).
Arguments Returned {A} a.
Arguments Threw {A} message.

(** ** String primitives of the JavaScript runtime *)

Module Js.

(** [s.startsWith(p)] *)
Definition startsWith (s p : string) : bool := String.prefix p s.

(** [s.endsWith(p)]: [s] is [p], or the tail of [s] ends with [p]. *)
Fixpoint endsWith (s p : string) : bool :=
  String.eqb s p ||
  match s with
  | EmptyString => false
  | String _ s' => endsWith s' p
  end.

(** [s.includes(p)]: some suffix of [s] starts with [p]. *)
Fixpoint includes (s p : string) : bool :=
  String.prefix p s ||
  match s with
  | EmptyString => false
  | String _ s' => includes s' p
  end.

(** [xs.includes(x)] on an array (or [set.has(x)] on a Set) of strings. *)
Definition arrayIncludes (xs : list string) (x : string) : bool :=
  existsb (String.eqb x) xs.

(** Truthiness of an optional string: [undefined] and [''] are falsy. *)
Definition truthy (o : option string) : bool :=
  match o with
  | Some s => negb (String.eqb s "")
  | None => false
  end.

Definition lowerByte (c : ascii) : ascii :=
  let n := nat_of_ascii c in
  if ((65 <=? n) && (n <=? 90))%nat then ascii_of_nat (n + 32) else c.

(** [s.toLowerCase()].  ASCII capitals are lowered and KELVIN SIGN
    (U+212A, bytes E2 84 AA), the one other character whose lower case
    is an ASCII letter, becomes [k]; other bytes are kept.  This agrees
    with JavaScript on ASCII input and on whether the result equals a
    given ASCII string. *)
Fixpoint toLowerCase (s : string) : string :=
  match s with
  | EmptyString => EmptyString
  | String c s' =>
      match s' with
      | String c1 (String c2 s'') =>
          if ((nat_of_ascii c =? 226) && (nat_of_ascii c1 =? 132)
              && (nat_of_ascii c2 =? 170))%nat
          then String "k" (toLowerCase s'')
          else String (lowerByte c) (toLowerCase s')
      | _ => String (lowerByte c) (toLowerCase s')
      end
  end.

(** [(x / 1024).toFixed(1)] for a non-negative integer [x] below 2^53:
    the quotient is an exact double, and [toFixed] rounds the exact
    value to the nearest tenth, the larger one on a tie. *)
Definition kibToFixed1 (x : Z) : string :=
  let tenths := ((x * 10 + 512) / 1024)%Z in
  pretty (tenths / 10)%Z ++ "." ++ pretty (tenths mod 10)%Z.

End Js.

(** ** [node:path], POSIX flavour *)

Module Path.

(** [path.isAbsolute(p)] *)
Definition isAbsolute (p : string) : bool := String.prefix "/" p.

Fixpoint dropSlashes (s : string) : string :=
  match s with
  | String "/" s' => dropSlashes s'
  | _ => s
  end.

Fixpoint untilSlash (s : string) : string :=
  match s with
  | EmptyString => EmptyString
  | String "/" _ => EmptyString
  | String c s' => String c (untilSlash s')
  end.

(** Splits a reversed base name at its first dot: the reversed
    extension (without the dot) and what follows the dot. *)
Fixpoint splitAtDot (s : string) : option (string * string) :=
  match s with
  | EmptyString => None
  | String "." s' => Some (EmptyString, s')
  | String c s' =>
      match splitAtDot s' with
      | Some (ext, pre) => Some (String c ext, pre)
      | None => None
      end
  end.

(** [path.extname(p)]: trailing separators are skipped, the last path
    component is taken, and the result runs from its last dot to its end;
    it is empty when there is no dot, when the only dot is the first
    character of the component, and when the component is [..]. *)
Definition extname (p : string) : string :=
  let rbase := untilSlash (dropSlashes (String.rev p)) in
  match splitAtDot rbase with
  | None => ""
  | Some (rext, rpre) =>
      if String.eqb rpre "" then ""
      else if String.eqb rbase ".." then ""
      else String.rev (rext ++ ".")
  end.

End Path.


(** ** The directory tree *)

(** One [fs.Dirent] together with what lies below it.  [OtherEnt] is an
    entry for which both [isDirectory()] and [isFile()] are false
    (symbolic link, socket, FIFO, device). *)
#[warnings="-register-all"]
Inductive Dirent : Type :=
| FileEnt (name : string)
| DirEnt (name : string) (listing : option (list Dirent))
| OtherEnt (name : string).

Definition entryName (e : Dirent) : string :=
  match e with
  | FileEnt n | DirEnt n _ | OtherEnt n => n
  end.

Definition isFile (e : Dirent) : bool :=
  match e with FileEnt _ => true | _ => false end.

Definition isDirectory (e : Dirent) : bool :=
  match e with DirEnt _ _ => true | _ => false end.

(** ** learn.ts *)

(** [FILE_PATTERNS]: each regular expression [/\.(a|b)$/] is the list of
    suffixes [".a"; ".b"]; the list keeps the order of the object's keys. *)
Definition FILE_PATTERNS : list (string * list string) :=
  [ ("javascript", [".js"; ".mjs"; ".cjs"]);
    ("typescript", [".ts"; ".tsx"]);
    ("python", [".py"]);
    ("rust", [".rs"]);
    ("go", [".go"]);
    ("java", [".java"]);
    ("csharp", [".cs"]);
    ("ruby", [".rb"]);
    ("php", [".php"]);
    ("markdown", [".md"; ".mdx"]);
    ("json", [".json"]);
    ("yaml", [".yaml"; ".yml"]);
    ("toml", [".toml"]);
    ("html", [".html"; ".htm"]);
    ("css", [".css"; ".scss"; ".sass"; ".less"]) ].

Definition IGNORED_DIRS : list string :=
  [ "node_modules"; ".git"; ".hg"; ".svn"; "dist"; "build"; "out"; "target";
    "__pycache__"; ".next"; ".nuxt"; ".cache"; "coverage"; ".nyc_output";
    "vendor"; "venv"; ".venv"; "env"; ".env" ].

Definition PROJECT_INDICATORS : list (string * list string) :=
  [ ("node", ["package.json"]);
    ("python", ["setup.py"; "pyproject.toml"; "requirements.txt"; "Pipfile"]);
    ("rust", ["Cargo.toml"]);
    ("go", ["go.mod"]);
    ("java", ["pom.xml"; "build.gradle"; "build.gradle.kts"]);
    ("dotnet", ["*.csproj"; "*.sln"]);
    ("ruby", ["Gemfile"]);
    ("php", ["composer.json"]) ].

Record LearnResult : Type := mkLearnResult {
  rootPath : string;
  totalFiles : nat;
  totalDirectories : nat;
  projectTypes : list string;
  filesByType : gmap string nat;
  structure : list string;
  conventions : list string;
  agentFiles : list string;
  durationMs : Z;
  truncated : bool
}.

Record LearnArgs : Type := mkLearnArgs {
  path : string;
  json : bool;
  verbose : bool
}.

Definition shouldIgnoreDir (dirName : string) : bool :=
  Js.arrayIncludes IGNORED_DIRS dirName || Js.startsWith dirName ".".

(** [pattern.test(filename)] for a pattern of [FILE_PATTERNS]. *)
Definition patternTest (suffixes : list string) (filename : string) : bool :=
  existsb (Js.endsWith filename) suffixes.

Fixpoint firstMatch (table : list (string * list string)) (filename : string)
  : option string :=
  match table with
  | [] => None
  | (type, pattern) :: table' =>
      if patternTest pattern filename then Some type
      else firstMatch table' filename
  end.

Definition detectFileType (filename : string) : option string :=
  firstMatch FILE_PATTERNS filename.

(** The regular expression's [.]: one character that is not a line
    terminator (LF, CR, U+2028, U+2029) ends the text [before]. *)
Definition dotMatchesEndOf (before : string) : bool :=
  negb (String.eqb before "")
  && negb (Js.endsWith before (String (ascii_of_nat 10) ""))
  && negb (Js.endsWith before (String (ascii_of_nat 13) ""))
  && negb (Js.endsWith before
       (String (ascii_of_nat 226) (String (ascii_of_nat 128)
          (String (ascii_of_nat 168) ""))))
  && negb (Js.endsWith before
       (String (ascii_of_nat 226) (String (ascii_of_nat 128)
          (String (ascii_of_nat 169) "")))).

(** [new RegExp('.*.' + literal).test(before + s)], the search continuing
    in [s]: the unanchored pattern matches when [literal] occurs right
    after a character that [.] accepts. *)
Fixpoint anyCharThen (literal before s : string) : bool :=
  (if String.prefix literal s then dotMatchesEndOf before else false) ||
  match s with
  | EmptyString => false
  | String c s' => anyCharThen literal (before ++ String c "") s'
  end.

(** One indicator against the top-level file names.  An indicator with a
    star is [*] followed by a dot and letters ([*.csproj], [*.sln]);
    [indicator.replace('*', '.*')] turns it into [.*] followed by the rest,
    whose own dot again stands for any character. *)
Definition indicatorMatches (files : list string) (indicator : string)
  : bool :=
  if Js.includes indicator "*" then
    match indicator with
    | String "*" (String "." literal) =>
        existsb (anyCharThen literal "") files
    | _ => false
    end
  else Js.arrayIncludes files indicator.

Definition detectProjectTypes (_rootPath : string) (files : list string)
  : list string :=
  let types :=
    map fst
      (filter (λ entry, Is_true (existsb (indicatorMatches files) entry.2))
              PROJECT_INDICATORS) in
  if (0 <? length types)%nat then types else ["unknown"].

(** [detectConventions]; [hasWorkflows] is the answer of
    [fs.existsSync(path.join(rootPath, '.github', 'workflows'))]. *)
Definition detectConventions (hasWorkflows : bool) (files : list string)
  : list string :=
  let has := Js.arrayIncludes files in
  let when (b : bool) (c : string) : list string := if b then [c] else [] in
  (when (has "tsconfig.json") "TypeScript enabled"
   ++ when (existsb (λ f, Js.startsWith f "eslint" || String.eqb f ".eslintrc"
                          || String.eqb f ".eslintrc.js"
                          || String.eqb f ".eslintrc.json") files)
           "ESLint for linting"
   ++ when (existsb (λ f, Js.startsWith f ".prettier"
                          || String.eqb f "prettier.config.js") files)
           "Prettier for formatting"
   ++ when (has "jest.config.js" || has "jest.config.ts") "Jest for testing"
   ++ when (has "vitest.config.ts" || has "vitest.config.js")
           "Vitest for testing"
   ++ when (has "pytest.ini" || has "conftest.py") "Pytest for testing"
   ++ when hasWorkflows "GitHub Actions for CI/CD"
   ++ when (has ".gitlab-ci.yml") "GitLab CI for CI/CD"
   ++ when (has "Dockerfile" || has "docker-compose.yml"
            || has "docker-compose.yaml") "Docker containerization"
   ++ when (has "AGENTS.md") "AGENTS.md for AI guidance")%list.

(** [path.join(relativePath, name)] for a name returned by [readdirSync]
    (never empty, [.] or [..], and free of separators), POSIX flavour:
    joining onto the empty path gives the name itself. *)
Definition pathJoin (relativePath name : string) : string :=
  if String.eqb relativePath "" then name
  else relativePath ++ "/" ++ name.

(** The object [scanDirectory] mutates. *)
Module Scan.
Record ScanResult : Type := mk {
  files : nat;
  directories : nat;
  filesByType : gmap string nat;
  agentFiles : list string
}.
End Scan.
Abbreviation ScanResult := Scan.ScanResult.

(** Lines 338-349: what the loop does for a plain file. *)
Definition countFile (name relativePath : string) (result : ScanResult)
  : ScanResult :=
  let byType :=
    match detectFileType name with
    | Some fileType =>
        <[fileType := (default 0 (Scan.filesByType result !! fileType) + 1)%nat]>
          (Scan.filesByType result)
    | None => Scan.filesByType result
    end in
  let agents :=
    if String.eqb name "AGENTS.md"
    then (Scan.agentFiles result ++ [pathJoin relativePath name])%list
    else Scan.agentFiles result in
  Scan.mk (S (Scan.files result)) (Scan.directories result) byType agents.

(** [result.directories++] *)
Definition countDirectory (result : ScanResult) : ScanResult :=
  Scan.mk (Scan.files result) (S (Scan.directories result))
          (Scan.filesByType result) (Scan.agentFiles result).

(** The [for] loop of [scanDirectory] over the entries of one directory.
    [recurse] stands for the recursive call
    [scanDirectory(path.join(dirPath, entry.name), maxFiles, result,
    path.join(relativePath, entry.name))]. *)
Definition scanEntries
    (recurse : Dirent → ScanResult → string → bool * ScanResult)
    (maxFiles : nat) (relativePath : string)
  : list Dirent → ScanResult → bool * ScanResult :=
  fix loop (entries : list Dirent) (result : ScanResult) {struct entries} :=
    match entries with
    | [] => (false, result)
    | entry :: rest =>
        if (maxFiles <=? Scan.files result)%nat then (true, result)
        else
          match entry with
          | DirEnt name _ =>
              if shouldIgnoreDir name then loop rest result
              else
                let '(truncated, result) :=
                  recurse entry (countDirectory result)
                          (pathJoin relativePath name) in
                if truncated then (true, result) else loop rest result
          | FileEnt name => loop rest (countFile name relativePath result)
          | OtherEnt _ => loop rest result
          end
    end.

(** [scanDirectory(dirPath, maxFiles, result, relativePath)], where [dir]
    is what lies at [dirPath].  [readdirSync] throws for a directory
    without listing (and for anything that is not a directory); the
    [catch] returns [false]. *)
Fixpoint scanDirectory (maxFiles : nat) (dir : Dirent) (result : ScanResult)
    (relativePath : string) {struct dir} : bool * ScanResult :=
  if (maxFiles <=? Scan.files result)%nat then (true, result)
  else
    match dir with
    | DirEnt _ (Some entries) =>
        scanEntries (scanDirectory maxFiles) maxFiles relativePath
                    entries result
    | _ => (false, result)
    end.

(** The loop of [scanDirectory] with its recursive call in place. *)
Abbreviation scanLoop maxFiles :=
  (scanEntries (scanDirectory maxFiles) maxFiles).

(** What [analyzeProject] reads besides the tree: the two readings of
    [Date.now()] and the probe of [detectConventions]. *)
Record Ambient : Type := mkAmbient {
  startTime : Z;
  endTime : Z;
  hasWorkflows : bool
}.

(** The message of the error [readdirSync] throws on the root. *)
Definition readdirError (rootPath : string) : string :=
  "EACCES: permission denied, scandir '" ++ rootPath ++ "'".

Definition buildStructure (topLevelDirs topLevelFiles : list string)
  : list string :=
  let total := (length topLevelDirs + length topLevelFiles)%nat in
  let more : list string :=
    if (20 <? total)%nat
    then ["... and " ++ pretty (total - 20)%nat ++ " more"]
    else [] in
  (map (λ dir, String.append dir "/") (take 10 topLevelDirs)
   ++ take 10 topLevelFiles ++ more)%list.

(** [analyzeProject(rootPath)], where [root] is what [rootPath]
    designates ([None]: nothing). *)
Definition analyzeProject (amb : Ambient) (rootPath : string)
    (root : option Dirent) : outcome LearnResult :=
  let maxFiles := 10000%nat in
  match root with
  | None => Threw ("Path does not exist: " ++ rootPath)
  | Some (FileEnt _) | Some (OtherEnt _) =>
      Threw ("Path is not a directory: " ++ rootPath)
  | Some (DirEnt _ None) => Threw (readdirError rootPath)
  | Some (DirEnt _ (Some topLevelEntries) as rootDir) =>
      let topLevelFiles :=
        map entryName (filter (λ e, Is_true (isFile e)) topLevelEntries) in
      let topLevelDirs :=
        map entryName
          (filter (λ e, Is_true (isDirectory e
                                 && negb (shouldIgnoreDir (entryName e))))
                  topLevelEntries) in
      let projectTypes := detectProjectTypes rootPath topLevelFiles in
      let conventions := detectConventions (hasWorkflows amb) topLevelFiles in
      let scanResult := Scan.mk 0 0 ∅ [] in
      let '(truncated, scanResult) :=
        scanDirectory maxFiles rootDir scanResult "" in
      let structure := buildStructure topLevelDirs topLevelFiles in
      let durationMs := (endTime amb - startTime amb)%Z in
      Returned
        {| rootPath := rootPath;
           totalFiles := Scan.files scanResult;
           totalDirectories := Scan.directories scanResult;
           projectTypes := projectTypes;
           filesByType := Scan.filesByType scanResult;
           structure := structure;
           conventions := conventions;
           agentFiles := Scan.agentFiles scanResult;
           durationMs := durationMs;
           truncated := truncated |}
  end.

(** What [executeLearnCommand] writes to the console, in order, and the
    code it hands to [process.exit]. *)
Inductive Printed : Type :=
| Analyzing (path : string)
| JsonResult (result : LearnResult)
| HumanResult (result : LearnResult) (verbose : bool)
| JsonError (message : string)
| ErrorLine (message : string).

(** [executeLearnCommand] after [parseLearnArgs] has returned. *)
Definition executeLearnCommand (amb : Ambient) (parsedArgs : LearnArgs)
    (root : option Dirent) : list Printed * nat :=
  let banner : list Printed :=
    if json parsedArgs then [] else [Analyzing (path parsedArgs)] in
  match analyzeProject amb (path parsedArgs) root with
  | Returned result =>
      ((banner ++ [if json parsedArgs then JsonResult result
                   else HumanResult result (verbose parsedArgs)])%list, 0%nat)
  | Threw message =>
      ((banner ++ [if json parsedArgs then JsonError message
                   else ErrorLine ("Error: " ++ message)])%list, 1%nat)
  end.

(** What [parseLearnArgs] writes before it calls [process.exit]: the help
    text of [printLearnHelp], or the line [Unknown option:] with the
    argument. *)
Inductive ParseMessage : Type :=
| HelpText
| UnknownOption (arg : string).

(** [parseLearnArgs] returns its result or leaves the process with an
    exit code. *)
Inductive Parse : Type :=
| Parsed (result : LearnArgs)
| Exit (code : nat) (printed : list ParseMessage).

(** The [for] loop of [parseLearnArgs]; [resolve] is [path.resolve] with
    one argument. *)
Fixpoint parseLoop (resolve : string → string) (args : list string)
    (result : LearnArgs) {struct args} : Parse :=
  match args with
  | [] => Parsed result
  | arg :: rest =>
      if String.eqb arg "--help" || String.eqb arg "-h" then
        Exit 0 [HelpText]
      else if String.eqb arg "--json" then
        parseLoop resolve rest
          (mkLearnArgs (path result) true (verbose result))
      else if String.eqb arg "--verbose" || String.eqb arg "-v" then
        parseLoop resolve rest
          (mkLearnArgs (path result) (json result) true)
      else if negb (Js.startsWith arg "-") then
        parseLoop resolve rest
          (mkLearnArgs (resolve arg) (json result) (verbose result))
      else Exit 1 [UnknownOption arg; HelpText]
  end.

(** [parseLearnArgs(args)], where [cwd] is [process.cwd()]. *)
Definition parseLearnArgs (cwd : string) (resolve : string → string)
    (args : list string) : Parse :=
  parseLoop resolve args (mkLearnArgs cwd false false).

(** ** White space of the JavaScript runtime *)

Module JsTrim.

Definition asciiSpace (b : nat) : bool :=
  ((9 <=? b) && (b <=? 13) || (b =? 32))%nat.

(** The bytes are UTF-8 for white space and line terminators only: TAB,
    LF, VT, FF, CR, SP, U+00A0, U+1680, U+2000 to U+200A, U+2028, U+2029,
    U+202F, U+205F, U+3000 and U+FEFF. *)
Fixpoint blankBytes (bytes : list nat) : bool :=
  match bytes with
  | [] => true
  | b :: rest =>
      if asciiSpace b then blankBytes rest
      else
        match rest with
        | c :: rest1 =>
            if ((b =? 194) && (c =? 160))%nat then blankBytes rest1
            else
              match rest1 with
              | d :: rest2 =>
                  if ((b =? 225) && (c =? 154) && (d =? 128)
                      || (b =? 226) && (c =? 128)
                         && ((128 <=? d) && (d <=? 138) || (d =? 168)
                             || (d =? 169) || (d =? 175))
                      || (b =? 226) && (c =? 129) && (d =? 159)
                      || (b =? 227) && (c =? 128) && (d =? 128)
                      || (b =? 239) && (c =? 187) && (d =? 191))%nat
                  then blankBytes rest2
                  else false
              | [] => false
              end
        | [] => false
        end
  end.

(** [!s.trim()]: trimming leaves nothing. *)
Definition isBlank (s : string) : bool :=
  blankBytes (map nat_of_ascii (list_ascii_of_string s)).

End JsTrim.

(** ** The context-file loader *)

Module ContextLoader.

Definition MAX_CONTEXT_FILE_SIZE : Z := 100 * 1024.

Definition MAX_LOAD_TIME_MS : Z := 1000.

Module File.
Record ContextFileResult : Type := mk {
  path : string;
  success : bool;
  content : option string;
  sizeBytes : option Z;
  error : option string
}.
End File.
Abbreviation ContextFileResult := File.ContextFileResult.

Module Load.
Record ContextLoadResult : Type := mk {
  success : bool;
  files : list ContextFileResult;
  combinedContent : string;
  totalSizeBytes : Z;
  loadTimeMs : Z;
  errors : list string
}.
End Load.
Abbreviation ContextLoadResult := Load.ContextLoadResult.

(** What the loader asks of its host: [path.resolve(cwd, filePath)],
    the three [node:fs] calls, and the clock ([now k] is the reading of
    the [k]-th call of [Date.now()], counted from 0).  [existsSync]
    never throws; [statSync] gives the size or throws; [readFileSync]
    gives the text or throws. *)
Record Host : Type := mkHost {
  resolve : string → string → string;
  existsSync : string → bool;
  statSync : string → outcome Z;
  readFileSync : string → outcome string;
  now : nat → Z
}.

Definition validExtensions : list string := [".md"; ".markdown"; ".txt"].

(** [xs.join(sep)] *)
Definition join (sep : string) (xs : list string) : string :=
  String.concat sep xs.

Definition validateContextFileFormat (filePath : string) : option string :=
  let ext := Js.toLowerCase (Path.extname filePath) in
  if negb (Js.arrayIncludes validExtensions ext) then
    Some ("Invalid context file format: " ++ ext ++ ". Expected "
          ++ join ", " validExtensions)
  else None.

Definition failed (resolvedPath message : string) : ContextFileResult :=
  File.mk resolvedPath false None None (Some message).

Definition loadContextFile (host : Host) (filePath cwd : string)
  : outcome ContextFileResult :=
  let resolvedPath :=
    if Path.isAbsolute filePath then filePath
    else resolve host cwd filePath in
  if negb (existsSync host resolvedPath) then
    Returned (failed resolvedPath
                ("Context file not found: " ++ resolvedPath))
  else
    match validateContextFileFormat resolvedPath with
    | Some formatError => Returned (failed resolvedPath formatError)
    | None =>
        match statSync host resolvedPath with
        | Threw message =>
            Returned (failed resolvedPath
                        ("Cannot access context file: " ++ message))
        | Returned size =>
            if (size >? MAX_CONTEXT_FILE_SIZE)%Z then
              Returned (failed resolvedPath
                ("Context file too large: " ++ Js.kibToFixed1 size
                 ++ "KB exceeds " ++ pretty (MAX_CONTEXT_FILE_SIZE / 1024)%Z
                 ++ "KB limit"))
            else
              match readFileSync host resolvedPath with
              | Returned content =>
                  Returned (File.mk resolvedPath true (Some content)
                                    (Some size) None)
              | Threw message =>
                  Returned (failed resolvedPath
                              ("Failed to read context file: " ++ message))
              end
        end
    end.

(** The local variables of [loadContextFiles] that its loop updates,
    and the number of clock readings taken so far. *)
Record LoopState : Type := mkLoop {
  results : list ContextFileResult;
  errors : list string;
  contents : list string;
  totalSize : Z;
  ticks : nat
}.

(** One pass of the loop body after the time check. *)
Definition record (result : ContextFileResult) (st : LoopState)
  : LoopState :=
  let st :=
    mkLoop (results st ++ [result]) (errors st) (contents st)
           (totalSize st) (ticks st) in
  if File.success result && Js.truthy (File.content result) then
    mkLoop (results st) (errors st)
           (contents st ++ [default "" (File.content result)])
           (totalSize st + default 0%Z (File.sizeBytes result))%Z
           (ticks st)
  else if Js.truthy (File.error result) then
    mkLoop (results st)
           (errors st ++ [default "" (File.error result)])
           (contents st) (totalSize st) (ticks st)
  else st.

(** The [for ... of filePaths] loop; a throwing [loadContextFile] would
    leave the loop and the function. *)
Fixpoint loadLoop (host : Host) (cwd : string) (startTime : Z)
    (filePaths : list string) (st : LoopState) : outcome LoopState :=
  match filePaths with
  | [] => Returned st
  | filePath :: rest =>
      let elapsed := (now host (ticks st) - startTime)%Z in
      let st :=
        mkLoop (results st) (errors st) (contents st) (totalSize st)
               (S (ticks st)) in
      if (elapsed >? MAX_LOAD_TIME_MS)%Z then
        Returned
          (mkLoop (results st)
                  (errors st
                   ++ ["Context loading timeout: exceeded "
                       ++ pretty MAX_LOAD_TIME_MS ++ "ms limit"])
                  (contents st) (totalSize st) (ticks st))
      else
        match loadContextFile host filePath cwd with
        | Threw message => Threw message
        | Returned result => loadLoop host cwd startTime rest (record result st)
        end
  end.

Definition loadContextFiles (host : Host) (filePaths : list string)
    (cwd : string) : outcome ContextLoadResult :=
  let startTime := now host 0 in
  match loadLoop host cwd startTime filePaths (mkLoop [] [] [] 0 1) with
  | Threw message => Threw message
  | Returned st =>
      let loadTimeMs := (now host (ticks st) - startTime)%Z in
      let combinedContent :=
        join (String "010" (String "010" "---"
               ++ String "010" (String "010" ""))) (contents st) in
      let success :=
        (0 <? length (results st))%nat
        && forallb File.success (results st) in
      Returned (Load.mk success (results st) combinedContent
                        (totalSize st) loadTimeMs (errors st))
  end.

(** [formatContextForPrompt(content, filePaths)] *)
Definition formatContextForPrompt (content : string)
    (filePaths : list string) : string :=
  if JsTrim.isBlank content then ""
  else
    let sources :=
      if (length filePaths =? 1)%nat then
        "Source: " ++ default "" (head filePaths)
      else
        "Sources:" ++ String "010" ""
        ++ join (String "010" "") (map (λ p, "  - " ++ p) filePaths) in
    "## Project Context" ++ String "010" (String "010" "")
    ++ sources ++ String "010" (String "010" "") ++ content.

End ContextLoader.

(** ** The completion summary screen *)

Module Summary.

(** [(bytes / unit).toFixed(2)] as a number of hundredths, for an integer
    [bytes] from 0 to 2^53 and [unit] a power of two: the quotient is an
    exact double, and [toFixed] rounds the exact value to the nearest
    hundredth, the larger one on a tie. *)
Definition hundredths (bytes unit : Z) : Z :=
  ((bytes * 100 + unit / 2) / unit)%Z.

(** The digits [toFixed(2)] writes for a number of hundredths. *)
Definition showFixed2 (n : Z) : string :=
  pretty (n / 100)%Z ++ "." ++ pretty (n mod 100 / 10)%Z
  ++ pretty (n mod 10)%Z.

Definition formatFileSize (bytes : Z) : string :=
  if (bytes <? 1024)%Z then pretty bytes ++ " B"
  else if (bytes <? 1024 * 1024)%Z then
    showFixed2 (hundredths bytes 1024) ++ " KB"
  else showFixed2 (hundredths bytes (1024 * 1024)) ++ " MB".

(** The size line of [OutputFileInfo]: [summary.outputFileSizeBytes ?
    formatFileSize(...) : 'unknown size'], where an absent size and a size
    of zero are both falsy. *)
Definition sizeDisplay (outputFileSizeBytes : option Z) : string :=
  match outputFileSizeBytes with
  | Some bytes =>
      if (bytes =? 0)%Z then "unknown size" else formatFileSize bytes
  | None => "unknown size"
  end.

(** A worker's statistics; the name is kept as its UTF-16 code units, the
    unit in which [length], [slice] and [padEnd] count. *)
Record WorkerStatistics : Type := mkWorker {
  id : string;
  name : list nat;
  folderCount : nat;
  fileCount : nat;
  durationMs : Z;
  retryCount : nat;
  success : bool
}.

(** [Math.max(10, ...xs)] *)
Definition maxWith (floor : nat) (xs : list nat) : nat :=
  foldr Nat.max floor xs.

(** [maxNameWidth] of [VerboseWorkerStats], which computes it for a table
    with at least one worker and renders nothing for an empty one. *)
Definition maxNameWidth (workerStats : list WorkerStatistics) : nat :=
  Nat.min 25 (maxWith 10 (map (λ w, length (name w)) workerStats)).

(** [s.padEnd(width)]: spaces are added at the end up to [width]. *)
Definition padEnd (s : list nat) (width : nat) : list nat :=
  (s ++ replicate (width - length s) 32)%list.

(** [nameDisplay] of a row; 8230 is the ellipsis. *)
Definition nameDisplay (maxNameWidth : nat) (worker : WorkerStatistics)
  : list nat :=
  if (maxNameWidth <? length (name worker))%nat
  then (take (maxNameWidth - 1) (name worker) ++ [8230])%list
  else padEnd (name worker) maxNameWidth.

End Summary.

(** ** Notions used to state the properties *)

(** The relative path the walk hands to a directory reached from the root
    through the directories [chain]. *)
Definition relativeOf (chain : list string) : string :=
  foldl pathJoin "" chain.

Definition eligibleIn
    (recurse : list string → Dirent → list (list string * string))
    (chain : list string)
  : list Dirent → list (list string * string) :=
  fix loop (entries : list Dirent) :=
    match entries with
    | [] => []
    | entry :: rest =>
        match entry with
        | FileEnt name => (chain, name) :: loop rest
        | DirEnt name _ =>
            if shouldIgnoreDir name then loop rest
            else (recurse (chain ++ [name]) entry ++ loop rest)%list
        | OtherEnt _ => loop rest
        end
    end.

(** The eligible files below [dir]: the plain files that lie in [dir] or
    in a directory reached from it through readable directories that are
    not ignored, each with the chain of directories leading to it, in
    depth-first order of the listings.  The file cap plays no part. *)
Fixpoint eligibleFiles (chain : list string) (dir : Dirent) {struct dir}
  : list (list string * string) :=
  match dir with
  | DirEnt _ (Some entries) => eligibleIn eligibleFiles chain entries
  | _ => []
  end.

(** The path of an eligible file relative to the root. *)
Definition pathOf (f : list string * string) : string :=
  pathJoin (relativeOf f.1) f.2.

Definition isMarker (f : list string * string) : bool :=
  String.eqb f.2 "AGENTS.md".

Definition hasType (type : string) (f : list string * string) : bool :=
  bool_decide (detectFileType f.2 = Some type).

(** The sum of all counts of a [filesByType] object. *)
Definition sumCounts (byType : gmap string nat) : nat :=
  map_fold (λ _ count acc, count + acc)%nat 0%nat byType.

Definition pruneEntries (recurse : Dirent → Dirent)
  : list Dirent → list Dirent :=
  fix loop (entries : list Dirent) :=
    match entries with
    | [] => []
    | entry :: rest =>
        match entry with
        | DirEnt name _ =>
            if shouldIgnoreDir name then loop rest
            else recurse entry :: loop rest
        | _ => entry :: loop rest
        end
    end.

(** The tree without its ignored directories, at every depth. *)
Fixpoint prune (dir : Dirent) {struct dir} : Dirent :=
  match dir with
  | DirEnt name (Some entries) =>
      DirEnt name (Some (pruneEntries prune entries))
  | _ => dir
  end.

Definition sealEntries (recurse : Dirent → Dirent)
  : list Dirent → list Dirent :=
  fix loop (entries : list Dirent) :=
    match entries with
    | [] => []
    | entry :: rest =>
        match entry with
        | DirEnt name _ =>
            (if shouldIgnoreDir name then DirEnt name None
             else recurse entry) :: loop rest
        | _ => entry :: loop rest
        end
    end.

(** The tree in which every ignored directory has lost its listing: what
    remains of the tree when nothing inside an ignored directory can be
    read. *)
Fixpoint seal (dir : Dirent) {struct dir} : Dirent :=
  match dir with
  | DirEnt name (Some entries) =>
      DirEnt name (Some (sealEntries seal entries))
  | _ => dir
  end.

(** The tree in which every directory that cannot be read is an empty
    directory instead. *)
Fixpoint emptied (dir : Dirent) {struct dir} : Dirent :=
  match dir with
  | DirEnt name (Some entries) => DirEnt name (Some (map emptied entries))
  | DirEnt name None => DirEnt name (Some [])
  | _ => dir
  end.

(** The object [analyzeProject] hands to the walk. *)
Definition freshScan : ScanResult := Scan.mk 0 0 ∅ [].

(** What a walk that starts in state [before] with limit [maxFiles] and
    has the eligible files [eligible] ahead of it must have done when it
    ends with [out]: it counted the first files of [eligible], as many as
    the limit leaves room for, and nothing else. *)
Definition Walked (maxFiles : nat) (eligible : list (list string * string))
    (before : ScanResult) (out : bool * ScanResult) : Prop :=
  let room := (maxFiles - Scan.files before)%nat in
  let counted := take room eligible in
  Scan.files out.2 = (Scan.files before + length counted)%nat
  ∧ Scan.agentFiles out.2
    = (Scan.agentFiles before
       ++ map pathOf (filter (λ f, Is_true (isMarker f)) counted))%list
  ∧ (∀ type,
       default 0%nat (Scan.filesByType out.2 !! type)
       = (default 0%nat (Scan.filesByType before !! type)
          + length (filter (λ f, Is_true (hasType type f)) counted))%nat)
  ∧ (room < length eligible → out.1 = true)%nat
  ∧ (out.1 = true → maxFiles ≤ Scan.files out.2)%nat.

(** Two walks that agree on the result and, unless the cap is reached, on
    the truncation flag. *)
Definition agree (maxFiles : nat) (out1 out2 : bool * ScanResult) : Prop :=
  out1.2 = out2.2 ∧ (out1.1 = out2.1 ∨ (maxFiles ≤ Scan.files out1.2)%nat).

(** [FILE_PATTERNS] as pairs of a type and one of its suffixes. *)
Definition suffixTable : list (string * string) :=
  flat_map (λ entry, map (λ suffix, (entry.1, suffix)) entry.2) FILE_PATTERNS.

(** No suffix of one type ends with a suffix of another type. *)
Definition suffixesApart : bool :=
  forallb (λ a,
    forallb (λ b,
      implb (Js.endsWith a.2 b.2 || Js.endsWith b.2 a.2)
            (String.eqb a.1 b.1)) suffixTable) suffixTable.

(** Some indicator of the project type [type] matches one of the
    top-level file names [files]. *)
Definition indicates (files : list string) (type : string) : Prop :=
  ∃ indicators indicator,
    In (type, indicators) PROJECT_INDICATORS ∧ In indicator indicators
    ∧ indicatorMatches files indicator = true.

(** The indicators read as the glob patterns they are written as, which is
    the reading of "an indicator file is present": a star followed by the
    rest names the files whose name ends with the rest, an indicator
    without a star names the file of exactly that name. *)
Definition globMatches (indicator file : string) : bool :=
  match indicator with
  | String "*" rest => Js.endsWith file rest
  | _ => String.eqb indicator file
  end.

(** The project types with an indicator file among [files], in the order
    of the table. *)
Definition presentTypes (files : list string) : list string :=
  map fst
    (filter
       (λ entry,
          Is_true (existsb (λ indicator, existsb (globMatches indicator) files)
                           entry.2))
       PROJECT_INDICATORS).

(** The list the specification describes: the types whose indicator file
    is present, and [unknown] alone when there is none. *)
Definition expectedProjectTypes (files : list string) : list string :=
  match presentTypes files with
  | [] => ["unknown"]
  | types => types
  end.

(** The names of the plain files in a listing. *)
Definition fileNames (entries : list Dirent) : list string :=
  map entryName (filter (λ e, Is_true (isFile e)) entries).

Import ContextLoader.

(** The path [loadContextFile] works on. *)
Definition resolved (host : Host) (filePath cwd : string) : string :=
  if Path.isAbsolute filePath then filePath else resolve host cwd filePath.

(** The file at [p] exists, has one of the valid extensions once the
    extension is lower-cased, reports the size [size] within the limit, and
    reads as [content]. *)
Definition Loadable (host : Host) (p : string) (size : Z) (content : string)
  : Prop :=
  existsSync host p = true
  ∧ In (Js.toLowerCase (Path.extname p)) validExtensions
  ∧ statSync host p = Returned size
  ∧ (size ≤ MAX_CONTEXT_FILE_SIZE)%Z
  ∧ readFileSync host p = Returned content.

(** The per-file result of a path. *)
Definition loaded (host : Host) (cwd filePath : string) : ContextFileResult :=
  match loadContextFile host filePath cwd with
  | Returned result => result
  | Threw message => failed (resolved host filePath cwd) message
  end.

(** What the walk does to the result, one step at a time: it enters a
    directory that is not ignored, or it counts a plain file found in the
    directory reached through [chain]. *)
Inductive WalkEvent : Type :=
| EnterDirectory
| CountFile (chain : list string) (name : string).

Definition eventsIn (recurse : list string → Dirent → list WalkEvent)
    (chain : list string) : list Dirent → list WalkEvent :=
  fix loop (entries : list Dirent) :=
    match entries with
    | [] => []
    | entry :: rest =>
        match entry with
        | FileEnt name => CountFile chain name :: loop rest
        | DirEnt name _ =>
            if shouldIgnoreDir name then loop rest
            else (EnterDirectory :: recurse (chain ++ [name]) entry
                  ++ loop rest)%list
        | OtherEnt _ => loop rest
        end
    end.

(** The steps of an unbounded depth-first walk below [dir]. *)
Fixpoint walkEvents (chain : list string) (dir : Dirent) {struct dir}
  : list WalkEvent :=
  match dir with
  | DirEnt _ (Some entries) => eventsIn walkEvents chain entries
  | _ => []
  end.

(** The steps up to and including the [room]-th counted file. *)
Fixpoint cutAfter (room : nat) (events : list WalkEvent) {struct events}
  : list WalkEvent :=
  match events with
  | [] => []
  | event :: rest =>
      match room with
      | O => []
      | S room' =>
          match event with
          | EnterDirectory => EnterDirectory :: cutAfter room rest
          | CountFile _ _ => event :: cutAfter room' rest
          end
      end
  end.

Definition applyEvent (result : ScanResult) (event : WalkEvent)
  : ScanResult :=
  match event with
  | EnterDirectory => countDirectory result
  | CountFile chain name => countFile name (relativeOf chain) result
  end.

Definition replay (events : list WalkEvent) (result : ScanResult)
  : ScanResult :=
  foldl applyEvent result events.

Definition isCount (event : WalkEvent) : bool :=
  match event with CountFile _ _ => true | EnterDirectory => false end.

Definition filesOf (events : list WalkEvent) : nat :=
  length (filter (λ e, Is_true (isCount e)) events).

Definition directoriesOf (events : list WalkEvent) : nat :=
  length (filter (λ e, Is_true (negb (isCount e))) events).

(** A walk that starts in [before] with the steps [events] ahead of it and
    ends with [out] has replayed the steps up to the cap; it reports
    truncation only with the cap reached, and when it reports none it has
    replayed every step. *)
Definition Replayed (maxFiles : nat) (events : list WalkEvent)
    (before : ScanResult) (out : bool * ScanResult) : Prop :=
  let room := (maxFiles - Scan.files before)%nat in
  out.2 = replay (cutAfter room events) before
  ∧ (out.1 = true → maxFiles ≤ Scan.files out.2)%nat
  ∧ (out.1 = false → cutAfter room events = events).

(** The labels [detectConventions] can report, in the order in which it
    checks for them. *)
Definition CONVENTION_LABELS : list string :=
  [ "TypeScript enabled"; "ESLint for linting"; "Prettier for formatting";
    "Jest for testing"; "Vitest for testing"; "Pytest for testing";
    "GitHub Actions for CI/CD"; "GitLab CI for CI/CD";
    "Docker containerization"; "AGENTS.md for AI guidance" ].

(** The arguments of the [learn] command by kind. *)
Definition isHelp (arg : string) : bool :=
  String.eqb arg "--help" || String.eqb arg "-h".

Definition isPositional (arg : string) : bool :=
  negb (Js.startsWith arg "-").

Definition isSwitch (arg : string) : bool :=
  String.eqb arg "--json" || String.eqb arg "--verbose" || String.eqb arg "-v".

(** An argument at which parsing ends: a request for help, or an option
    that is not known. *)
Definition endsParse (arg : string) : bool :=
  isHelp arg || negb (isSwitch arg || isPositional arg).

(** ** Sample trees and hosts *)

Definition plainFiles (stem : string) (n : nat) : list Dirent :=
  map (λ i, FileEnt (stem ++ pretty i ++ ".txt")) (seq 0 n).

(** 10,005 plain files in the root. *)
Definition manyFilesTree : Dirent :=
  DirEnt "proj" (Some (plainFiles "f" 10005%nat)).

(** An ignored [node_modules] with 5,000 files next to a project area of
    three folders and ten files. *)
Definition nodeModulesTree : Dirent :=
  DirEnt "proj"
    (Some [ DirEnt "node_modules"
              (Some (plainFiles "dep" 5000%nat));
            DirEnt "src"
              (Some [FileEnt "index.ts"; FileEnt "cli.ts"; FileEnt "util.ts";
                     FileEnt "AGENTS.md"]);
            DirEnt "lib" (Some [FileEnt "a.py"; FileEnt "b.py"; FileEnt "c.rs"]);
            DirEnt "docs" (Some [FileEnt "guide.md"; FileEnt "notes"]);
            FileEnt "package.json" ]).

(** A readable root with one directory that cannot be read, a marker file
    three levels down, and a symbolic link. *)
Definition mixedTree : Dirent :=
  DirEnt "proj"
    (Some [ FileEnt "AGENTS.md";
            DirEnt "secret" None;
            DirEnt "src"
              (Some [ FileEnt "main.ts";
                      DirEnt "deep"
                        (Some [DirEnt "er" (Some [FileEnt "AGENTS.md"])]) ]);
            OtherEnt "link";
            FileEnt "z.py" ]).

(** A project without any indicator file, with two files whose names
    merely contain [sln] and [csproj]. *)
Definition lookalikeTree : Dirent :=
  DirEnt "proj"
    (Some [ FileEnt "README.md"; FileEnt "xsln";
            FileEnt "old-csproj-backup.txt" ]).

Definition sampleAmbient : Ambient := mkAmbient 1000 1042 false.

(** A host with the working directory [/w] holding [NOTES.MD] (5 bytes),
    [ctx.md] (12 bytes), [big.md] (102,401 bytes) and [data.json]. *)
Definition sampleHost : Host :=
  mkHost
    (λ cwd filePath, cwd ++ "/" ++ filePath)
    (λ p, Js.arrayIncludes
            ["/w/NOTES.MD"; "/w/ctx.md"; "/w/big.md"; "/w/data.json"] p)
    (λ p, if String.eqb p "/w/NOTES.MD" then Returned 5%Z
          else if String.eqb p "/w/ctx.md" then Returned 12%Z
          else if String.eqb p "/w/big.md" then Returned 102401%Z
          else if String.eqb p "/w/data.json" then Returned 2%Z
          else Threw ("ENOENT: no such file or directory, stat '" ++ p ++ "'"))
    (λ p, if String.eqb p "/w/NOTES.MD" then Returned "notes"
          else if String.eqb p "/w/ctx.md" then Returned "project ctx."
          else if String.eqb p "/w/data.json" then Returned "{}"
          else Threw ("ENOENT: no such file or directory, open '" ++ p ++ "'"))
    (λ k, Z.of_nat k).

(** A per-file result whose text goes into the combined content: it
    succeeded and its text is not empty. *)
Definition contributes (r : ContextFileResult) : bool :=
  File.success r && Js.truthy (File.content r).

(** The error message the loop of [loadContextFiles] keeps for a per-file
    result, if any. *)
Definition reported (r : ContextFileResult) : list string :=
  if contributes r then []
  else if Js.truthy (File.error r) then [default "" (File.error r)]
  else [].

Definition timeoutMessage : string :=
  "Context loading timeout: exceeded " ++ pretty MAX_LOAD_TIME_MS
  ++ "ms limit".

(** The sizes of the contributing results, added up. *)
Definition contributedSize (rs : list ContextFileResult) : Z :=
  foldr (λ r acc, (default 0 (File.sizeBytes r) + acc)%Z) 0%Z
        (filter (λ r, Is_true (contributes r)) rs).

(** A host whose clock passes the time limit between the first and the
    second file. *)
Definition slowHost : Host :=
  mkHost (resolve sampleHost) (existsSync sampleHost) (statSync sampleHost)
         (readFileSync sampleHost)
         (λ k, if (k <=? 1)%nat then 0%Z else 5000%Z).

(** ** Reasoning about directory trees *)

(** Induction over the entries of a directory and, through every readable
    sub-directory, over the entries below. *)
Lemma entries_ind (P : list Dirent → Prop) :
  P [] →
  (∀ name rest, P rest → P (FileEnt name :: rest)) →
  (∀ name rest, P rest → P (OtherEnt name :: rest)) →
  (∀ name rest, P rest → P (DirEnt name None :: rest)) →
  (∀ name sub rest, P sub → P rest → P (DirEnt name (Some sub) :: rest)) →
  ∀ entries, P entries.
Proof.
  intros Hnil Hfile Hother Hnone Hsome.
  pose (Q := λ d : Dirent,
          match d with DirEnt _ (Some sub) => P sub | _ => True end).
  assert (HQ : ∀ d, Q d).
  { refine (fix go (d : Dirent) : Q d :=
              match d return Q d with
              | DirEnt _ (Some sub) =>
                  (fix go_list (l : list Dirent) : P l :=
                     match l return P l with
                     | [] => Hnil
                     | e :: rest =>
                         match e return Q e → P (e :: rest) with
                         | FileEnt name => λ _, Hfile name rest (go_list rest)
                         | OtherEnt name => λ _, Hother name rest (go_list rest)
                         | DirEnt name None =>
                             λ _, Hnone name rest (go_list rest)
                         | DirEnt name (Some sub') =>
                             λ IH, Hsome name sub' rest IH (go_list rest)
                         end (go e)
                     end) sub
              | _ => I
              end). }
  intros entries. exact (HQ (DirEnt "" (Some entries))).
Qed.

(** ** The walk, step by step *)

Lemma scanDirectory_unfold maxFiles dir result relativePath :
  scanDirectory maxFiles dir result relativePath
  = if (maxFiles <=? Scan.files result)%nat then (true, result)
    else match dir with
         | DirEnt _ (Some entries) =>
             scanLoop maxFiles relativePath entries result
         | _ => (false, result)
         end.
Proof. destruct dir; reflexivity. Qed.

Lemma scanLoop_cons maxFiles rel entry rest result :
  scanLoop maxFiles rel (entry :: rest) result
  = if (maxFiles <=? Scan.files result)%nat then (true, result)
    else match entry with
         | DirEnt name _ =>
             if shouldIgnoreDir name then scanLoop maxFiles rel rest result
             else
               let out :=
                 scanDirectory maxFiles entry (countDirectory result)
                               (pathJoin rel name) in
               if out.1 then (true, out.2)
               else scanLoop maxFiles rel rest out.2
         | FileEnt name =>
             scanLoop maxFiles rel rest (countFile name rel result)
         | OtherEnt _ => scanLoop maxFiles rel rest result
         end.
Proof.
  cbn [scanEntries]. destruct (maxFiles <=? Scan.files result)%nat; [done|].
  destruct entry as [name | name listing | name]; try done.
  destruct (shouldIgnoreDir name); [done|].
  by destruct (scanDirectory maxFiles _ _ _) as [[] ?].
Qed.

(** Case analysis on the limit check at the head of the loop body. *)
Ltac limit_check m result :=
  destruct (Nat.leb_spec m (Scan.files result)).

(** Once the limit is reached nothing is counted any more. *)
Lemma scanDirectory_full maxFiles dir result rel :
  (maxFiles ≤ Scan.files result)%nat →
  scanDirectory maxFiles dir result rel = (true, result).
Proof.
  intros Hfull. rewrite scanDirectory_unfold.
  limit_check maxFiles result; [done | lia].
Qed.

Lemma scanLoop_full maxFiles rel entries result :
  (maxFiles ≤ Scan.files result)%nat →
  scanLoop maxFiles rel entries result
  = (match entries with [] => false | _ => true end, result).
Proof.
  intros Hfull. destruct entries as [|entry rest]; [done|].
  rewrite scanLoop_cons. limit_check maxFiles result; [done | lia].
Qed.

Lemma relativeOf_snoc chain name :
  pathJoin (relativeOf chain) name = relativeOf (chain ++ [name]).
Proof. unfold relativeOf. by rewrite foldl_app. Qed.

(** ** What the walk has counted *)

Lemma Walked_nil maxFiles before :
  Walked maxFiles [] before (false, before).
Proof.
  unfold Walked. rewrite take_nil. cbn.
  rewrite app_nil_r. repeat split; intros; try done; lia.
Qed.

Lemma Walked_full maxFiles eligible before :
  (maxFiles ≤ Scan.files before)%nat →
  Walked maxFiles eligible before (true, before).
Proof.
  intros Hfull. unfold Walked.
  replace (maxFiles - Scan.files before)%nat with 0%nat by lia.
  rewrite take_0. cbn. rewrite app_nil_r.
  repeat split; intros; try done; lia.
Qed.

(** Two stretches of the walk, one after the other; the second is only
    walked when the first did not report truncation. *)
Lemma Walked_app maxFiles eligible1 eligible2 before out1 out2 :
  Walked maxFiles eligible1 before out1 →
  (out1.1 = false → Walked maxFiles eligible2 out1.2 out2) →
  Walked maxFiles (eligible1 ++ eligible2) before
         (if out1.1 then (true, out1.2) else out2).
Proof.
  intros (Hfiles & Hagents & Htypes & Hmore & Hcap) Hnext.
  pose proof (length_take eligible1 (maxFiles - Scan.files before)) as Hlen.
  destruct out1 as [[] mid]; cbn [fst snd] in *.
  - specialize (Hcap eq_refl).
    assert (Hle : (maxFiles - Scan.files before ≤ length eligible1)%nat)
      by lia.
    unfold Walked; cbn [fst snd]. rewrite (take_app_le _ _ _ Hle).
    repeat split; try done; lia.
  - destruct (Hnext eq_refl) as (Hfiles2 & Hagents2 & Htypes2 & Hmore2 & Hcap2).
    assert (Hle : (length eligible1 ≤ maxFiles - Scan.files before)%nat).
    { destruct (decide (maxFiles - Scan.files before < length eligible1)%nat)
        as [Hlt|]; [by specialize (Hmore Hlt) | lia]. }
    rewrite (take_ge _ _ Hle) in *.
    assert (Hroom : (maxFiles - Scan.files mid
                     = maxFiles - Scan.files before - length eligible1)%nat)
      by lia.
    rewrite Hroom in *. clear Hroom.
    unfold Walked. rewrite take_app, (take_ge _ _ Hle).
    rewrite !filter_app, !map_app, !length_app.
    split; [lia|]. split; [by rewrite Hagents2, Hagents, app_assoc|].
    split; [intros type; rewrite Htypes2, Htypes, filter_app, length_app; lia|].
    split; [intros Hlt; apply Hmore2; lia | done].
Qed.

Lemma filter_bool_singleton {A} (p : A → bool) (x : A) :
  filter (λ y, Is_true (p y)) [x] = if p x then [x] else [].
Proof.
  rewrite filter_cons, filter_nil.
  destruct (p x) eqn:Hp; case_decide as H; try done.
Qed.

Lemma Walked_countFile maxFiles chain name before :
  (Scan.files before < maxFiles)%nat →
  Walked maxFiles [(chain, name)] before
         (false, countFile name (relativeOf chain) before).
Proof.
  intros Hroom. unfold Walked.
  rewrite take_ge by (cbn; lia). rewrite !filter_bool_singleton.
  cbn [fst snd length].
  split; [cbn; lia|].
  split; [|split; [|split; [intros ?; exfalso; lia | done]]].
  - unfold countFile, isMarker, pathOf. cbn [Scan.agentFiles fst snd].
    destruct (String.eqb name "AGENTS.md"); cbn; [done|].
    by rewrite app_nil_r.
  - intros type. rewrite filter_bool_singleton.
    unfold countFile, hasType. cbn [Scan.filesByType fst snd].
    destruct (detectFileType name) as [fileType|] eqn:Htype.
    + destruct (decide (fileType = type)) as [->|Hne].
      * rewrite lookup_insert_eq, bool_decide_eq_true_2 by done. cbn. lia.
      * rewrite lookup_insert_ne by done.
        rewrite bool_decide_eq_false_2 by congruence. cbn. lia.
    + rewrite bool_decide_eq_false_2 by congruence. cbn. lia.
Qed.

Lemma Walked_countDirectory maxFiles eligible before out :
  Walked maxFiles eligible (countDirectory before) out →
  Walked maxFiles eligible before out.
Proof. done. Qed.

Lemma scanLoop_Walked maxFiles entries :
  ∀ before chain,
    Walked maxFiles (eligibleIn eligibleFiles chain entries) before
           (scanLoop maxFiles (relativeOf chain) entries before).
Proof.
  induction entries as [| name rest IH | name rest IH | name rest IH
                        | name sub rest IHsub IH] using entries_ind;
    intros before chain.
  - apply Walked_nil.
  - rewrite scanLoop_cons.
    limit_check maxFiles before; [by apply Walked_full|].
    pose proof (Walked_countFile maxFiles chain name before) as Hfile.
    exact (Walked_app maxFiles [(chain, name)] _ before (false, _) _
             (Hfile ltac:(lia)) (λ _, IH _ chain)).
  - rewrite scanLoop_cons.
    limit_check maxFiles before; [by apply Walked_full | apply IH].
  - rewrite scanLoop_cons. cbn [eligibleIn].
    limit_check maxFiles before; [by apply Walked_full|].
    destruct (shouldIgnoreDir name); [apply IH|].
    rewrite scanDirectory_unfold. cbn [Scan.files countDirectory].
    limit_check maxFiles before; [lia|]. cbn.
    apply Walked_countDirectory, IH.
  - rewrite scanLoop_cons. cbn [eligibleIn].
    limit_check maxFiles before; [by apply Walked_full|].
    destruct (shouldIgnoreDir name); [apply IH|].
    rewrite scanDirectory_unfold. cbn [Scan.files countDirectory].
    limit_check maxFiles before; [lia|].
    rewrite relativeOf_snoc. cbn [eligibleFiles].
    apply Walked_countDirectory.
    pose proof (IHsub (countDirectory before) (chain ++ [name])%list) as Hsub.
    exact (Walked_app _ _ _ _ _ _ Hsub (λ _, IH _ chain)).
Qed.

(** [scanDirectory] counts the first eligible files, as many as the limit
    leaves room for. *)
Lemma scanDirectory_Walked maxFiles dir before chain :
  Walked maxFiles (eligibleFiles chain dir) before
         (scanDirectory maxFiles dir before (relativeOf chain)).
Proof.
  rewrite scanDirectory_unfold.
  limit_check maxFiles before; [by apply Walked_full|].
  destruct dir as [name | name [entries|] | name]; try apply Walked_nil.
  apply scanLoop_Walked.
Qed.

(** ** [analyzeProject] on a readable root *)

Lemma analyzeProject_readable amb rootPath name entries :
  ∃ r,
    analyzeProject amb rootPath (Some (DirEnt name (Some entries)))
    = Returned r
    ∧ (truncated r,
       Scan.mk (totalFiles r) (totalDirectories r) (filesByType r)
               (agentFiles r))
      = scanDirectory 10000 (DirEnt name (Some entries)) freshScan ""
    ∧ projectTypes r
      = detectProjectTypes rootPath
          (map entryName (filter (λ e, Is_true (isFile e)) entries))
    ∧ durationMs r = (endTime amb - startTime amb)%Z.
Proof.
  unfold analyzeProject.
  change (Scan.mk 0 0 ∅ []) with freshScan.
  destruct (scanDirectory 10000 (DirEnt name (Some entries)) freshScan "")
    as [flag [f d t a]] eqn:Hscan.
  eexists. split; [reflexivity|]. cbn [truncated totalFiles totalDirectories
    filesByType agentFiles projectTypes durationMs]. done.
Qed.

Lemma relativeOf_single rel : relativeOf [rel] = rel.
Proof. done. Qed.

(** The walk from a fresh result, in terms of the eligible files. *)
Lemma analyzeProject_Walked amb rootPath name entries :
  ∃ r,
    analyzeProject amb rootPath (Some (DirEnt name (Some entries)))
    = Returned r
    ∧ Walked 10000 (eligibleFiles [] (DirEnt name (Some entries))) freshScan
             (truncated r,
              Scan.mk (totalFiles r) (totalDirectories r) (filesByType r)
                      (agentFiles r)).
Proof.
  destruct (analyzeProject_readable amb rootPath name entries)
    as (r & Hr & Hscan & _).
  exists r. split; [done|]. rewrite Hscan.
  apply (scanDirectory_Walked _ _ _ []).
Qed.

(** ** C1: the file cap *)

(** C1.  For every readable root directory, [analyzeProject] returns a
    result (it does not throw) whose [totalFiles] is the number of eligible
    files or the cap 10,000, whichever is smaller; when the tree has more
    eligible files than the cap, [totalFiles] is exactly the cap and
    [truncated] is [true].  For any cap, [scanDirectory] called with the
    cap already reached returns [true] at once and leaves the result
    untouched, and a walk that starts at or below the cap never counts
    beyond it. *)
Theorem C1_file_cap :
  ∀ (amb : Ambient) (rootPath name : string) (entries : list Dirent),
    let root := DirEnt name (Some entries) in
    let eligible := eligibleFiles [] root in
    (∃ r,
       analyzeProject amb rootPath (Some root) = Returned r
       ∧ totalFiles r = (10000 `min` length eligible)%nat
       ∧ (totalFiles r ≤ 10000)%nat
       ∧ ((10000 < length eligible)%nat →
          totalFiles r = 10000%nat ∧ truncated r = true))
    ∧ (∀ maxFiles dir result rel,
         (maxFiles ≤ Scan.files result)%nat →
         scanDirectory maxFiles dir result rel = (true, result))
    ∧ (∀ maxFiles dir result rel,
         (Scan.files result ≤ maxFiles)%nat →
         (Scan.files (scanDirectory maxFiles dir result rel).2 ≤ maxFiles)%nat).
Proof.
  intros amb rootPath name entries root eligible. split; [|split].
  - destruct (analyzeProject_Walked amb rootPath name entries)
      as (r & Hr & Hfiles & _ & _ & Hmore & _).
    cbn [fst snd Scan.files freshScan] in Hfiles, Hmore.
    rewrite Nat.sub_0_r, length_take in *. fold root eligible in Hfiles, Hmore.
    exists r. split; [done|]. split; [exact Hfiles|]. split; [lia|].
    intros Hlt. split; [lia | by apply Hmore].
  - intros maxFiles dir result rel. apply scanDirectory_full.
  - intros maxFiles dir result rel Hle.
    pose proof (scanDirectory_Walked maxFiles dir result [rel]) as (Hfiles & _).
    rewrite relativeOf_single in Hfiles. rewrite Hfiles, length_take. lia.
Qed.

(** The scenario of the specification: 10,005 plain files under the cap of
    10,000. *)
Lemma C1_file_cap_witness :
  ∃ r,
    analyzeProject sampleAmbient "/proj" (Some manyFilesTree) = Returned r
    ∧ totalFiles r = 10000%nat ∧ truncated r = true.
Proof.
  destruct (C1_file_cap sampleAmbient "/proj" "proj" (plainFiles "f" 10005))
    as [(r & Hr & _ & _ & Hcap) _].
  exists r. split; [exact Hr|]. apply Hcap.
  apply Nat.ltb_lt. vm_compute. reflexivity.
Defined.

(** ** C2: ignored directories *)

Lemma arrayIncludes_In xs x : Js.arrayIncludes xs x = true ↔ In x xs.
Proof.
  unfold Js.arrayIncludes. rewrite existsb_exists. split.
  - intros (y & Hy & Heq). apply String.eqb_eq in Heq. by subst.
  - intros Hx. exists x. split; [done | apply String.eqb_refl].
Qed.

Lemma scanLoop_seal maxFiles entries :
  ∀ result rel,
    scanLoop maxFiles rel (sealEntries seal entries) result
    = scanLoop maxFiles rel entries result.
Proof.
  induction entries as [| name rest IH | name rest IH | name rest IH
                        | name sub rest IHsub IH] using entries_ind;
    intros result rel; cbn [sealEntries]; [done|..];
    destruct (shouldIgnoreDir name) eqn:Hig;
    rewrite !scanLoop_cons, ?Hig; limit_check maxFiles result;
    try done; try apply IH; cbn [seal]; rewrite ?Hig.
  - rewrite IH. by destruct (scanDirectory _ _ _ _).1.
  - rewrite !scanDirectory_unfold, IHsub, IH.
    by destruct (if (maxFiles <=? _)%nat then _ else _).1.
Qed.

Lemma scanDirectory_seal maxFiles dir result rel :
  scanDirectory maxFiles (seal dir) result rel
  = scanDirectory maxFiles dir result rel.
Proof.
  destruct dir as [name | name [entries|] | name]; try done.
  cbn [seal]. rewrite !scanDirectory_unfold. by rewrite scanLoop_seal.
Qed.

Lemma scanLoop_prune maxFiles entries :
  ∀ result rel,
    agree maxFiles (scanLoop maxFiles rel entries result)
          (scanLoop maxFiles rel (pruneEntries prune entries) result).
Proof.
  assert (Hignored : ∀ name listing rest result rel,
    shouldIgnoreDir name = true →
    (∀ result rel, agree maxFiles (scanLoop maxFiles rel rest result)
       (scanLoop maxFiles rel (pruneEntries prune rest) result)) →
    agree maxFiles (scanLoop maxFiles rel (DirEnt name listing :: rest) result)
          (scanLoop maxFiles rel (pruneEntries prune rest) result)).
  { intros name listing rest result rel Hig IH. rewrite scanLoop_cons, Hig.
    limit_check maxFiles result; [|apply IH].
    rewrite scanLoop_full by done. split; [done | by right]. }
  assert (Hafter : ∀ rest rel (out1 out2 : bool * ScanResult),
    agree maxFiles out1 out2 →
    (∀ result rel, agree maxFiles (scanLoop maxFiles rel rest result)
       (scanLoop maxFiles rel (pruneEntries prune rest) result)) →
    agree maxFiles
      (if out1.1 then (true, out1.2) else scanLoop maxFiles rel rest out1.2)
      (if out2.1 then (true, out2.2)
       else scanLoop maxFiles rel (pruneEntries prune rest) out2.2)).
  { intros rest rel [flag1 mid1] [flag2 mid2] [Hmid Hflag] IH.
    cbn [fst snd] in *. subst mid2.
    destruct flag1, flag2; cbn [fst snd].
    - split; [done | by left].
    - destruct Hflag as [|Hfull]; [done|].
      rewrite scanLoop_full by done. split; [done | by right].
    - destruct Hflag as [|Hfull]; [done|].
      rewrite scanLoop_full by done. split; [done | by right].
    - apply IH. }
  induction entries as [| name rest IH | name rest IH | name rest IH
                        | name sub rest IHsub IH] using entries_ind;
    intros result rel; cbn [pruneEntries].
  - split; [done | by left].
  - rewrite !scanLoop_cons.
    limit_check maxFiles result; [split; [done | by left] | apply IH].
  - rewrite !scanLoop_cons.
    limit_check maxFiles result; [split; [done | by left] | apply IH].
  - destruct (shouldIgnoreDir name) eqn:Hig; [by apply Hignored|].
    cbn [prune]. rewrite !scanLoop_cons, Hig.
    limit_check maxFiles result; [split; [done | by left]|].
    apply Hafter; [split; [done | by left] | done].
  - destruct (shouldIgnoreDir name) eqn:Hig; [by apply Hignored|].
    cbn [prune]. rewrite !scanLoop_cons, Hig.
    limit_check maxFiles result; [split; [done | by left]|].
    apply Hafter; [|done].
    rewrite !scanDirectory_unfold.
    destruct (maxFiles <=? _)%nat; [split; [done | by left] | apply IHsub].
Qed.

Lemma scanDirectory_prune maxFiles dir result rel :
  agree maxFiles (scanDirectory maxFiles dir result rel)
        (scanDirectory maxFiles (prune dir) result rel).
Proof.
  destruct dir as [name | name [entries|] | name];
    try (split; [done | by left]).
  cbn [prune]. rewrite !scanDirectory_unfold.
  destruct (maxFiles <=? _)%nat; [split; [done | by left]|].
  apply scanLoop_prune.
Qed.

(** C2.  A directory is ignored exactly when its name is in the fixed
    ignore list or begins with a dot.  The walk gives the same flag and
    the same result on a tree and on the tree in which every ignored
    directory has lost its listing, so nothing inside an ignored directory
    is ever read; and it gives the same counters (files, directories,
    per-type counts, marker files) on a tree and on the tree without its
    ignored directories, for [scanDirectory] under any cap and for
    [analyzeProject].  In the scenario of the specification (an ignored
    [node_modules] with 5,000 files, a project area of three folders and ten
    files) the result has 3 directories, 10 files and is not truncated. *)
Theorem C2_ignored_directories :
  (∀ dirName,
     shouldIgnoreDir dirName = true
     ↔ In dirName IGNORED_DIRS ∨ String.prefix "." dirName = true)
  ∧ (∀ maxFiles dir result rel,
       scanDirectory maxFiles (seal dir) result rel
       = scanDirectory maxFiles dir result rel)
  ∧ (∀ maxFiles dir result rel,
       (scanDirectory maxFiles (prune dir) result rel).2
       = (scanDirectory maxFiles dir result rel).2)
  ∧ (∀ amb rootPath name entries,
       ∃ r r',
         analyzeProject amb rootPath (Some (DirEnt name (Some entries)))
         = Returned r
         ∧ analyzeProject amb rootPath
             (Some (prune (DirEnt name (Some entries))))
           = Returned r'
         ∧ totalFiles r = totalFiles r'
         ∧ totalDirectories r = totalDirectories r'
         ∧ filesByType r = filesByType r'
         ∧ agentFiles r = agentFiles r')
  ∧ (∃ r,
       analyzeProject sampleAmbient "/proj" (Some nodeModulesTree)
       = Returned r
       ∧ totalDirectories r = 3%nat ∧ totalFiles r = 10%nat
       ∧ truncated r = false).
Proof.
  split; [|split; [|split; [|split]]].
  - intros dirName. unfold shouldIgnoreDir, Js.startsWith.
    rewrite orb_true_iff, arrayIncludes_In. done.
  - apply scanDirectory_seal.
  - intros maxFiles dir result rel.
    by destruct (scanDirectory_prune maxFiles dir result rel) as [-> _].
  - intros amb rootPath name entries.
    destruct (analyzeProject_readable amb rootPath name entries)
      as (r & Hr & Hscan & _).
    destruct (analyzeProject_readable amb rootPath name
                (pruneEntries prune entries)) as (r' & Hr' & Hscan' & _).
    exists r, r'. split; [done|]. split; [done|].
    destruct (scanDirectory_prune 10000 (DirEnt name (Some entries))
                freshScan "") as [Heq _].
    cbn [prune] in Heq. rewrite <- Hscan, <- Hscan' in Heq.
    cbn [snd] in Heq. by injection Heq.
  - destruct (analyzeProject_readable sampleAmbient "/proj" "proj"
                (match nodeModulesTree with
                 | DirEnt _ (Some entries) => entries
                 | _ => []
                 end)) as (r & Hr & Hscan & _).
    exists r. split; [exact Hr|].
    vm_compute in Hscan. injection Hscan as Hflag Hfiles Hdirs _ _.
    split; [exact Hdirs|]. split; [exact Hfiles | exact Hflag].
Qed.

(** The truncation flag, unlike the counters, can depend on an ignored
    entry: with exactly as many eligible files as the cap allows, the walk
    reports truncation when any entry follows the last counted file, and
    does not when none follows. *)
Lemma flag_when_cap_met_exactly :
  scanDirectory 1
    (DirEnt "proj" (Some [FileEnt "a.ts"; DirEnt "node_modules" (Some [])]))
    freshScan ""
  = (true, Scan.mk 1 0 {["typescript" := 1%nat]} [])
  ∧ scanDirectory 1 (DirEnt "proj" (Some [FileEnt "a.ts"])) freshScan ""
    = (false, Scan.mk 1 0 {["typescript" := 1%nat]} []).
Proof. split; reflexivity. Qed.

(** ** C3: directories that cannot be read *)

Lemma scanLoop_emptied maxFiles entries :
  ∀ result rel,
    scanLoop maxFiles rel (map emptied entries) result
    = scanLoop maxFiles rel entries result.
Proof.
  induction entries as [| name rest IH | name rest IH | name rest IH
                        | name sub rest IHsub IH] using entries_ind;
    intros result rel; cbn [map emptied]; [done|..];
    rewrite !scanLoop_cons; limit_check maxFiles result;
    try done; try apply IH;
    (destruct (shouldIgnoreDir name); [apply IH|]);
    rewrite !scanDirectory_unfold; cbn [Scan.files countDirectory];
    (limit_check maxFiles result; [lia|]);
    cbn; rewrite ?IHsub, ?IH; done.
Qed.

Lemma scanDirectory_emptied maxFiles dir result rel :
  scanDirectory maxFiles (emptied dir) result rel
  = scanDirectory maxFiles dir result rel.
Proof.
  destruct dir as [name | name [entries|] | name]; try done;
    cbn [emptied]; rewrite !scanDirectory_unfold.
  by rewrite scanLoop_emptied.
Qed.

Lemma filter_map_emptied (p : Dirent → bool) entries :
  (∀ e, p (emptied e) = p e) →
  map entryName (filter (λ e, Is_true (p e)) (map emptied entries))
  = map entryName (filter (λ e, Is_true (p e)) entries).
Proof.
  intros Hp. induction entries as [|e rest IH]; [done|].
  cbn [map]. rewrite !filter_cons, Hp.
  destruct (p e); repeat case_decide; try done.
  cbn [map]. rewrite IH. f_equal. by destruct e as [|? []|].
Qed.

Lemma analyzeProject_emptied amb rootPath name entries :
  analyzeProject amb rootPath (Some (emptied (DirEnt name (Some entries))))
  = analyzeProject amb rootPath (Some (DirEnt name (Some entries))).
Proof.
  pose proof (scanDirectory_emptied 10000 (DirEnt name (Some entries))
                (Scan.mk 0 0 ∅ []) "") as Hscan.
  cbn [emptied] in *. unfold analyzeProject.
  rewrite Hscan.
  rewrite (filter_map_emptied isFile) by (by intros [|? []|]).
  rewrite (filter_map_emptied
             (λ e, isDirectory e && negb (shouldIgnoreDir (entryName e))))
    by (by intros [|? []|]).
  done.
Qed.

(** C3 as stated fails twice.  When the directory that cannot be read is
    the root, [analyzeProject] throws: its own [readdirSync] on the root
    is outside any [try].  When it is a directory below the root, it has
    been counted in [totalDirectories] before the read is attempted: a
    root whose only entry is an unreadable directory reports one
    directory. *)
Lemma C3_counterexample :
  analyzeProject sampleAmbient "/proj" (Some (DirEnt "proj" None))
  = Threw (readdirError "/proj")
  ∧ ∃ r,
      analyzeProject sampleAmbient "/proj"
        (Some (DirEnt "proj" (Some [DirEnt "secret" None])))
      = Returned r
      ∧ totalDirectories r = 1%nat.
Proof. split; [reflexivity|]. eexists. split; reflexivity. Qed.

(** C3, amended.  Below a readable root, a directory that is not ignored
    and cannot be read is treated exactly as an empty directory: when the
    loop meets it under the cap it counts the directory and goes on with
    the remaining entries; [scanDirectory] gives the same flag and result
    on a tree and on the tree in which every unreadable directory is
    empty; and [analyzeProject] returns a result, the same one for both
    trees, so nothing in it tells the failed read apart.  When the root
    itself cannot be read, [analyzeProject] throws. *)
Theorem C3_unreadable_directory :
  (∀ amb rootPath name,
     analyzeProject amb rootPath (Some (DirEnt name None))
     = Threw (readdirError rootPath))
  ∧ (∀ maxFiles rel name rest result,
     shouldIgnoreDir name = false →
     (Scan.files result < maxFiles)%nat →
     scanLoop maxFiles rel (DirEnt name None :: rest) result
     = scanLoop maxFiles rel rest (countDirectory result))
  ∧ (∀ maxFiles dir result rel,
       scanDirectory maxFiles (emptied dir) result rel
       = scanDirectory maxFiles dir result rel)
  ∧ (∀ amb rootPath name entries,
       (∃ r, analyzeProject amb rootPath (Some (DirEnt name (Some entries)))
             = Returned r)
       ∧ analyzeProject amb rootPath
           (Some (emptied (DirEnt name (Some entries))))
         = analyzeProject amb rootPath (Some (DirEnt name (Some entries)))).
Proof.
  split; [done|]. split; [|split].
  - intros maxFiles rel name rest result Hig Hroom.
    rewrite scanLoop_cons, Hig, scanDirectory_unfold.
    cbn [Scan.files countDirectory].
    limit_check maxFiles result; [lia | done].
  - apply scanDirectory_emptied.
  - intros amb rootPath name entries. split.
    + destruct (analyzeProject_readable amb rootPath name entries)
        as (r & Hr & _). by exists r.
    + apply analyzeProject_emptied.
Qed.

(** A tree with an unreadable directory between readable ones: the walk
    goes past it and reaches the files that follow. *)
Lemma C3_unreadable_directory_witness :
  scanLoop 10 "" [DirEnt "secret" None; FileEnt "z.py"] freshScan
  = scanLoop 10 "" [FileEnt "z.py"] (countDirectory freshScan)
  ∧ ∃ r,
      analyzeProject sampleAmbient "/proj" (Some mixedTree) = Returned r
      ∧ totalFiles r = 4%nat ∧ totalDirectories r = 4%nat
      ∧ truncated r = false.
Proof.
  destruct C3_unreadable_directory as (_ & Hstep & _ & Hroot).
  split.
  - apply Hstep; [reflexivity | cbn; lia].
  - destruct (Hroot sampleAmbient "/proj" "proj"
                (match mixedTree with
                 | DirEnt _ (Some entries) => entries
                 | _ => []
                 end)) as [[r Hr] _].
    exists r. split; [exact Hr|].
    vm_compute in Hr. injection Hr as <-. repeat split.
Defined.

(** ** C4: the root path *)

(** C4 as stated fails on a root that exists and is a directory but whose
    entries cannot be listed: [analyzeProject] throws the error of its own
    [readdirSync]. *)
Lemma C4_counterexample :
  isDirectory (DirEnt "proj" None) = true
  ∧ analyzeProject sampleAmbient "/proj" (Some (DirEnt "proj" None))
    = Threw (readdirError "/proj").
Proof. split; reflexivity. Qed.

(** C4, amended.  When nothing lies at the root path, [analyzeProject]
    throws [Path does not exist:] followed by the path; when something
    other than a directory lies there, it throws [Path is not a directory:]
    followed by the path; when the root is a directory that cannot be
    listed, the error of [readdirSync] is thrown.  In these cases no tree
    is walked, and [executeLearnCommand] prints the message instead of a
    result and exits with code 1.  For every root directory that can be
    listed, [analyzeProject] returns a result and [executeLearnCommand]
    prints it and exits with code 0. *)
Theorem C4_root_path :
  ∀ (amb : Ambient) (rootPath : string),
    analyzeProject amb rootPath None
    = Threw ("Path does not exist: " ++ rootPath)
    ∧ (∀ name,
         analyzeProject amb rootPath (Some (FileEnt name))
         = Threw ("Path is not a directory: " ++ rootPath)
         ∧ analyzeProject amb rootPath (Some (OtherEnt name))
           = Threw ("Path is not a directory: " ++ rootPath)
         ∧ analyzeProject amb rootPath (Some (DirEnt name None))
           = Threw (readdirError rootPath))
    ∧ (∀ name entries,
         ∃ r, analyzeProject amb rootPath
                (Some (DirEnt name (Some entries))) = Returned r)
    ∧ (∀ args root message,
         analyzeProject amb (path args) root = Threw message →
         executeLearnCommand amb args root
         = (if json args then [JsonError message]
            else [Analyzing (path args); ErrorLine ("Error: " ++ message)],
            1%nat))
    ∧ (∀ args root r,
         analyzeProject amb (path args) root = Returned r →
         executeLearnCommand amb args root
         = (if json args then [JsonResult r]
            else [Analyzing (path args); HumanResult r (verbose args)],
            0%nat)).
Proof.
  intros amb rootPath. split; [done|]. split; [done|]. split; [|split].
  - intros name entries.
    destruct (analyzeProject_readable amb rootPath name entries)
      as (r & Hr & _). by exists r.
  - intros args root message Hthrew. unfold executeLearnCommand.
    rewrite Hthrew. by destruct (json args).
  - intros args root r Hret. unfold executeLearnCommand.
    rewrite Hret. by destruct (json args).
Qed.

(** A missing path and a plain file at the root path, through the
    command. *)
Lemma C4_root_path_witness :
  executeLearnCommand sampleAmbient (mkLearnArgs "/gone" true false) None
  = ([JsonError "Path does not exist: /gone"], 1%nat)
  ∧ executeLearnCommand sampleAmbient (mkLearnArgs "/proj/a.ts" false false)
      (Some (FileEnt "a.ts"))
    = ([Analyzing "/proj/a.ts";
        ErrorLine "Error: Path is not a directory: /proj/a.ts"], 1%nat).
Proof.
  split.
  - apply (proj1 (proj2 (proj2 (proj2
      (C4_root_path sampleAmbient "/gone"))))
      (mkLearnArgs "/gone" true false) None).
    reflexivity.
  - apply (proj1 (proj2 (proj2 (proj2
      (C4_root_path sampleAmbient "/proj/a.ts"))))
      (mkLearnArgs "/proj/a.ts" false false) (Some (FileEnt "a.ts"))).
    reflexivity.
Defined.

(** ** C5: classification of files *)

Lemma endsWith_refl s : Js.endsWith s s = true.
Proof. destruct s; cbn [Js.endsWith]; by rewrite String.eqb_refl. Qed.

(** Two endings of one string: one of them ends with the other. *)
Lemma endsWith_comparable s a b :
  Js.endsWith s a = true → Js.endsWith s b = true →
  Js.endsWith a b = true ∨ Js.endsWith b a = true.
Proof.
  induction s as [|c s IH]; cbn [Js.endsWith];
    rewrite !orb_true_iff, !String.eqb_eq.
  - intros [<-|?] [<-|?]; try done. by left.
  - intros [<-|Ha] [<-|Hb].
    + left. apply endsWith_refl.
    + left. cbn [Js.endsWith]. rewrite Hb. apply orb_true_r.
    + right. cbn [Js.endsWith]. rewrite Ha. apply orb_true_r.
    + by apply IH.
Qed.

Lemma firstMatch_Some table name type :
  firstMatch table name = Some type →
  ∃ suffixes suffix,
    In (type, suffixes) table ∧ In suffix suffixes
    ∧ Js.endsWith name suffix = true.
Proof.
  induction table as [|[type' pattern] table IH]; [done|].
  cbn [firstMatch]. destruct (patternTest pattern name) eqn:Htest.
  - intros [= <-]. apply existsb_exists in Htest as (suffix & Hin & Hends).
    exists pattern, suffix. split; [by left | done].
  - intros (suffixes & suffix & Hin & Hrest)%IH.
    exists suffixes, suffix. split; [by right | done].
Qed.

Lemma firstMatch_None table name :
  firstMatch table name = None ↔
  ∀ type suffixes suffix,
    In (type, suffixes) table → In suffix suffixes →
    Js.endsWith name suffix = false.
Proof.
  induction table as [|[type' pattern] table IH]; [done|].
  cbn [firstMatch]. destruct (patternTest pattern name) eqn:Htest.
  - split; [done|]. intros Hnone.
    apply existsb_exists in Htest as (suffix & Hin & Hends).
    rewrite (Hnone type' pattern suffix) in Hends; [done | by left | done].
  - rewrite IH. split.
    + intros Hnone type suffixes suffix [[= <- <-]|Hin] Hsuffix.
      * destruct (Js.endsWith name suffix) eqn:Hends; [|done].
        unfold patternTest in Htest.
        assert (existsb (Js.endsWith name) pattern = true) as Hex
          by (apply existsb_exists; eauto).
        congruence.
      * by apply (Hnone type suffixes suffix).
    + intros Hnone type suffixes suffix Hin.
      apply (Hnone type suffixes suffix). by right.
Qed.

Lemma suffixTable_In type suffixes suffix :
  In (type, suffixes) FILE_PATTERNS → In suffix suffixes →
  In (type, suffix) suffixTable.
Proof.
  intros Hin Hsuffix. unfold suffixTable. apply in_flat_map.
  exists (type, suffixes). split; [done|]. cbn. apply in_map_iff. eauto.
Qed.

Lemma suffixesApart_true : suffixesApart = true.
Proof. vm_compute. reflexivity. Qed.

(** The type of a file is the type of any suffix of the table it ends
    with. *)
Lemma detectFileType_suffix name type suffixes suffix :
  In (type, suffixes) FILE_PATTERNS → In suffix suffixes →
  Js.endsWith name suffix = true →
  detectFileType name = Some type.
Proof.
  intros Hin Hsuffix Hends. unfold detectFileType.
  destruct (firstMatch FILE_PATTERNS name) as [type'|] eqn:Hfirst.
  - apply firstMatch_Some in Hfirst as (suffixes' & suffix' & Hin' & Hsuffix' & Hends').
    pose proof suffixesApart_true as Hapart. unfold suffixesApart in Hapart.
    rewrite forallb_forall in Hapart.
    specialize (Hapart _ (suffixTable_In _ _ _ Hin Hsuffix)).
    rewrite forallb_forall in Hapart.
    specialize (Hapart _ (suffixTable_In _ _ _ Hin' Hsuffix')).
    cbn [fst snd] in Hapart.
    destruct (endsWith_comparable _ _ _ Hends Hends') as [Hc|Hc];
      rewrite Hc, ?orb_true_r in Hapart; cbn in Hapart;
      apply String.eqb_eq in Hapart; by subst.
  - rewrite firstMatch_None in Hfirst.
    rewrite (Hfirst _ _ _ Hin Hsuffix) in Hends. done.
Qed.

Lemma sumCounts_increment (byType : gmap string nat) type :
  sumCounts (<[type := (default 0 (byType !! type) + 1)%nat]> byType)
  = S (sumCounts byType).
Proof.
  unfold sumCounts.
  assert (Hcomm : ∀ (m : gmap string nat) (j1 j2 : string) (z1 z2 y : nat),
            j1 ≠ j2 → m !! j1 = Some z1 → m !! j2 = Some z2 →
            (z1 + (z2 + y) = z2 + (z1 + y))%nat) by (intros; lia).
  destruct (byType !! type) as [count|] eqn:Hlookup;
    cbn [default from_option id].
  - rewrite (map_fold_delete_L _ _ type count byType) by eauto.
    rewrite <- insert_delete_eq.
    rewrite map_fold_insert_L; [lia | eauto | apply lookup_delete_eq].
  - rewrite map_fold_insert_L; [lia | eauto | done].
Qed.

(** Whatever holds of the result before the walk, and is kept by counting
    a file and by counting a directory, holds after it. *)
Lemma scanLoop_invariant (I : ScanResult → Prop) maxFiles :
  (∀ name rel result, I result → I (countFile name rel result)) →
  (∀ result, I result → I (countDirectory result)) →
  ∀ entries result rel,
    I result → I (scanLoop maxFiles rel entries result).2.
Proof.
  intros Hfile Hdir.
  induction entries as [| name rest IH | name rest IH | name rest IH
                        | name sub rest IHsub IH] using entries_ind;
    intros result rel Hresult; [done|..];
    rewrite scanLoop_cons; limit_check maxFiles result; try done;
    try (apply IH; auto; fail);
    (destruct (shouldIgnoreDir name); [by apply IH|]);
    rewrite scanDirectory_unfold; cbn [Scan.files countDirectory];
    (limit_check maxFiles result; [lia|]).
  - cbn. apply IH, Hdir, Hresult.
  - pose proof (IHsub (countDirectory result) (pathJoin rel name)
                  (Hdir _ Hresult)) as Hsub.
    destruct (scanLoop maxFiles (pathJoin rel name) sub _) as [[] mid];
      cbn [fst snd] in *; [done | by apply IH].
Qed.

Lemma scanDirectory_invariant (I : ScanResult → Prop) maxFiles :
  (∀ name rel result, I result → I (countFile name rel result)) →
  (∀ result, I result → I (countDirectory result)) →
  ∀ dir result rel,
    I result → I (scanDirectory maxFiles dir result rel).2.
Proof.
  intros Hfile Hdir dir result rel Hresult. rewrite scanDirectory_unfold.
  limit_check maxFiles result; [done|].
  destruct dir as [name | name [entries|] | name]; try done.
  by apply scanLoop_invariant.
Qed.

Lemma countFile_sum name rel result :
  (sumCounts (Scan.filesByType result) ≤ Scan.files result)%nat →
  (sumCounts (Scan.filesByType (countFile name rel result))
   ≤ Scan.files (countFile name rel result))%nat.
Proof.
  intros Hle. unfold countFile. cbn [Scan.filesByType Scan.files].
  destruct (detectFileType name); [rewrite sumCounts_increment|]; lia.
Qed.

(** C5.  A file whose name ends with a suffix of the pattern table has the
    type of that suffix ([.ts] and [.tsx] are typescript, [.py] is python,
    [.js], [.mjs] and [.cjs] are javascript, and so on), and a file whose
    name ends with none of them has no type.  Counting a file adds one to
    [files]; when the file has a type, the count of that type grows by one
    and no other count changes; when it has none, no count changes.  Hence
    the walk keeps the sum of all per-type counts at or below [files], and
    in every result of [analyzeProject] each per-type count is the number
    of counted files of that type and their sum is at most
    [totalFiles]. *)
Theorem C5_file_types :
  (∀ name type suffixes suffix,
     In (type, suffixes) FILE_PATTERNS → In suffix suffixes →
     Js.endsWith name suffix = true → detectFileType name = Some type)
  ∧ (∀ name,
       (∀ type suffixes suffix,
          In (type, suffixes) FILE_PATTERNS → In suffix suffixes →
          Js.endsWith name suffix = false) →
       detectFileType name = None)
  ∧ (In ("typescript", [".ts"; ".tsx"]) FILE_PATTERNS
     ∧ In ("python", [".py"]) FILE_PATTERNS
     ∧ In ("javascript", [".js"; ".mjs"; ".cjs"]) FILE_PATTERNS)
  ∧ (∀ name rel result,
       Scan.files (countFile name rel result) = S (Scan.files result)
       ∧ Scan.filesByType (countFile name rel result)
         = match detectFileType name with
           | Some type =>
               <[type := (default 0 (Scan.filesByType result !! type) + 1)%nat]>
                 (Scan.filesByType result)
           | None => Scan.filesByType result
           end)
  ∧ (∀ maxFiles dir result rel,
       (sumCounts (Scan.filesByType result) ≤ Scan.files result)%nat →
       let out := scanDirectory maxFiles dir result rel in
       (sumCounts (Scan.filesByType out.2) ≤ Scan.files out.2)%nat)
  ∧ (∀ amb rootPath name entries,
       ∃ r,
         analyzeProject amb rootPath (Some (DirEnt name (Some entries)))
         = Returned r
         ∧ (sumCounts (filesByType r) ≤ totalFiles r)%nat
         ∧ ∀ type,
             default 0%nat (filesByType r !! type)
             = length
                 (filter (λ f, Is_true (hasType type f))
                    (take 10000
                       (eligibleFiles [] (DirEnt name (Some entries)))))).
Proof.
  split; [|split; [|split; [|split; [|split; [|]]]]].
  - apply detectFileType_suffix.
  - intros name Hnone. by apply firstMatch_None.
  - cbn. tauto.
  - done.
  - intros maxFiles dir result rel Hle out. subst out.
    apply (scanDirectory_invariant
             (λ r, (sumCounts (Scan.filesByType r) ≤ Scan.files r)%nat));
      [intros; by apply countFile_sum | done | done].
  - intros amb rootPath name entries.
    destruct (analyzeProject_Walked amb rootPath name entries)
      as (r & Hr & _ & _ & Htypes & _).
    destruct (analyzeProject_readable amb rootPath name entries)
      as (r' & Hr' & Hscan & _).
    assert (r' = r) as -> by congruence.
    exists r. split; [done|]. split.
    + pose proof (scanDirectory_invariant
        (λ r, (sumCounts (Scan.filesByType r) ≤ Scan.files r)%nat) 10000
        (λ name rel result H, countFile_sum name rel result H)
        (λ result H, H) (DirEnt name (Some entries)) freshScan "") as Hinv.
      rewrite <- Hscan in Hinv. apply Hinv. cbn. unfold sumCounts.
      rewrite map_fold_empty. lia.
    + intros type. specialize (Htypes type).
      cbn [fst snd Scan.filesByType Scan.files freshScan] in Htypes.
      rewrite lookup_empty, Nat.sub_0_r in Htypes. exact Htypes.
Qed.

(** In the tree with an ignored [node_modules], nine of the ten counted
    files have a type. *)
Lemma C5_file_types_witness :
  detectFileType "index.ts" = Some "typescript"
  ∧ detectFileType "notes" = None
  ∧ ∃ r,
      analyzeProject sampleAmbient "/proj" (Some nodeModulesTree)
      = Returned r
      ∧ totalFiles r = 10%nat
      ∧ sumCounts (filesByType r) = 9%nat
      ∧ filesByType r !! "typescript" = Some 3%nat.
Proof.
  destruct C5_file_types as (Htable & Hnone & (Hts & _) & _ & _ & Hroot).
  split; [|split].
  - apply (Htable "index.ts" "typescript" [".ts"; ".tsx"] ".ts" Hts);
      [by left | reflexivity].
  - reflexivity.
  - destruct (Hroot sampleAmbient "/proj" "proj"
                (match nodeModulesTree with
                 | DirEnt _ (Some entries) => entries
                 | _ => []
                 end)) as (r & Hr & _).
    exists r. split; [exact Hr|].
    vm_compute in Hr. injection Hr as <-.
    split; [reflexivity|]. split; vm_compute; reflexivity.
Defined.

(** ** C6: marker files *)

Lemma append_assoc (a b c : string) : (a ++ b) ++ c = a ++ b ++ c.
Proof.
  induction a as [|x a IH]; [reflexivity|].
  change (String x ((a ++ b) ++ c) = String x (a ++ b ++ c)). by rewrite IH.
Qed.

Lemma append_empty (a b : string) : a ++ b = "" → a = "".
Proof. by destruct a. Qed.

Lemma concat_snoc sep (xs : list string) x :
  xs ≠ [] →
  String.concat sep (xs ++ [x]) = String.concat sep xs ++ sep ++ x.
Proof.
  induction xs as [|a [|b xs] IH]; [done | done |].
  intros _. change (String.concat sep ((a :: b :: xs) ++ [x]))
    with (a ++ sep ++ String.concat sep ((b :: xs) ++ [x])).
  rewrite IH by done.
  change (String.concat sep (a :: b :: xs))
    with (a ++ sep ++ String.concat sep (b :: xs)).
  by rewrite !append_assoc.
Qed.

Lemma concat_empty sep (xs : list string) :
  Forall (λ x, x ≠ "") xs → String.concat sep xs = "" → xs = [].
Proof.
  destruct xs as [|a [|b xs]]; [done|..]; intros Hall Hempty;
    apply Forall_cons_1 in Hall as [Ha _]; cbn in Hempty.
  - done.
  - by apply append_empty in Hempty.
Qed.

(** The relative path of a directory is the chain of directory names
    leading to it, joined by separators. *)
Lemma relativeOf_concat chain :
  Forall (λ name, name ≠ "") chain →
  relativeOf chain = String.concat "/" chain.
Proof.
  induction chain as [|name chain IH] using rev_ind; [done|].
  intros [Hchain Hname]%Forall_app.
  rewrite <- relativeOf_snoc, IH by done. unfold pathJoin.
  destruct (String.eqb_spec (String.concat "/" chain) "") as [Hempty|Hne].
  - by rewrite (concat_empty _ _ Hchain Hempty).
  - rewrite concat_snoc; [done|]. by intros ->.
Qed.

(** C6.  The marker files in [agentFiles] after a walk are those recorded
    before it followed by the relative paths of the eligible files named
    [AGENTS.md] among the files the walk counts, in the order of the walk.
    For [analyzeProject]: [agentFiles] lists the relative paths of the
    files named [AGENTS.md] among the first 10,000 eligible files, so every
    such file met before the cap is recorded, whatever its depth.  The
    recorded path is the chain of directory names from the root and the
    file name, joined by separators. *)
Theorem C6_marker_files :
  (∀ maxFiles dir result chain,
     Scan.agentFiles (scanDirectory maxFiles dir result (relativeOf chain)).2
     = (Scan.agentFiles result
        ++ map pathOf
             (filter (λ f, Is_true (isMarker f))
                (take (maxFiles - Scan.files result)
                      (eligibleFiles chain dir))))%list)
  ∧ (∀ amb rootPath name entries,
       ∃ r,
         analyzeProject amb rootPath (Some (DirEnt name (Some entries)))
         = Returned r
         ∧ agentFiles r
           = map pathOf
               (filter (λ f, Is_true (isMarker f))
                  (take 10000
                     (eligibleFiles [] (DirEnt name (Some entries)))))
         ∧ ∀ (i : nat) chain,
             (i < 10000)%nat →
             eligibleFiles [] (DirEnt name (Some entries)) !! i
             = Some (chain, "AGENTS.md") →
             pathOf (chain, "AGENTS.md") ∈ agentFiles r)
  ∧ (∀ chain name,
       Forall (λ dirName, dirName ≠ "") chain →
       pathOf (chain, name) = String.concat "/" (chain ++ [name])).
Proof.
  split; [|split].
  - intros maxFiles dir result chain.
    by destruct (scanDirectory_Walked maxFiles dir result chain)
      as (_ & Hagents & _).
  - intros amb rootPath name entries.
    destruct (analyzeProject_Walked amb rootPath name entries)
      as (r & Hr & _ & Hagents & _).
    cbn [fst snd Scan.agentFiles Scan.files freshScan] in Hagents.
    rewrite Nat.sub_0_r in Hagents. cbn [app] in Hagents.
    exists r. split; [done|]. split; [done|].
    intros i chain Hi Hlookup. rewrite Hagents.
    apply list_elem_of_In, in_map, list_elem_of_In, list_elem_of_filter.
    split; [done|]. apply elem_of_take. eauto.
  - intros chain name Hchain. unfold pathOf. cbn [fst snd].
    rewrite relativeOf_concat by done. unfold pathJoin.
    destruct (String.eqb_spec (String.concat "/" chain) "") as [Hempty|Hne].
    + by rewrite (concat_empty _ _ Hchain Hempty).
    + rewrite concat_snoc; [done|]. by intros ->.
Qed.

(** Marker files at the root and three directories down. *)
Lemma C6_marker_files_witness :
  ∃ r,
    analyzeProject sampleAmbient "/proj" (Some mixedTree) = Returned r
    ∧ agentFiles r = ["AGENTS.md"; "src/deep/er/AGENTS.md"]
    ∧ pathOf (["src"; "deep"; "er"], "AGENTS.md") ∈ agentFiles r
    ∧ pathOf (["src"; "deep"; "er"], "AGENTS.md")
      = String.concat "/" ["src"; "deep"; "er"; "AGENTS.md"].
Proof.
  destruct C6_marker_files as (_ & Hroot & Hpath).
  destruct (Hroot sampleAmbient "/proj" "proj"
              (match mixedTree with
               | DirEnt _ (Some entries) => entries
               | _ => []
               end)) as (r & Hr & Hagents & Hmember).
  exists r. split; [exact Hr|]. split; [|split].
  - rewrite Hagents. vm_compute. reflexivity.
  - apply (Hmember 2%nat); [apply Nat.ltb_lt; vm_compute|]; reflexivity.
  - apply Hpath. repeat constructor; discriminate.
Defined.

(** ** C7: the analysis is a function of the tree *)

(** C7.  The regular expressions of the pattern table carry no state, the
    ignore list is never written, and every run starts from a fresh scan
    result, so the clock and the probe of [detectConventions] are all that
    can differ between two runs on an unchanged tree.  Whatever they are,
    the two runs either both throw the same error or both return results
    with the same [totalFiles], [totalDirectories] and [truncated] (and the
    same per-type counts, marker files, project types and structure). *)
Theorem C7_deterministic :
  ∀ (amb1 amb2 : Ambient) (rootPath : string) (root : option Dirent),
    match analyzeProject amb1 rootPath root,
          analyzeProject amb2 rootPath root with
    | Returned r1, Returned r2 =>
        totalFiles r1 = totalFiles r2
        ∧ totalDirectories r1 = totalDirectories r2
        ∧ truncated r1 = truncated r2
        ∧ filesByType r1 = filesByType r2
        ∧ agentFiles r1 = agentFiles r2
        ∧ projectTypes r1 = projectTypes r2
        ∧ structure r1 = structure r2
    | Threw message1, Threw message2 => message1 = message2
    | _, _ => False
    end.
Proof.
  intros amb1 amb2 rootPath [[name | name [entries|] | name]|]; try done.
  unfold analyzeProject.
  by destruct (scanDirectory 10000 _ _ _) as [flag [f d t a]].
Qed.

(** ** Project types *)

Lemma detectProjectTypes_unfold rootPath files :
  let types :=
    map fst
      (filter (λ entry, Is_true (existsb (indicatorMatches files) entry.2))
              PROJECT_INDICATORS) in
  detectProjectTypes rootPath files
  = match types with [] => ["unknown"] | _ => types end
  ∧ ∀ type, In type types ↔ indicates files type.
Proof.
  intros types. split.
  - unfold detectProjectTypes. fold types. by destruct types.
  - intros type. subst types. rewrite in_map_iff. unfold indicates. split.
    + intros ([type' indicators] & <- & Hin).
      apply list_elem_of_In, list_elem_of_filter in Hin as [Hmatch Hin].
      apply Is_true_true, existsb_exists in Hmatch
        as (indicator & Hindicator & Hmatch).
      exists indicators, indicator. split; [by apply list_elem_of_In | done].
    + intros (indicators & indicator & Hin & Hindicator & Hmatch).
      exists (type, indicators). split; [done|].
      apply list_elem_of_In, list_elem_of_filter.
      split; [|by apply list_elem_of_In].
      apply Is_true_true, existsb_exists. eauto.
Qed.

(** ** C10: loading one context file *)

Lemma validateContextFileFormat_spec filePath :
  match validateContextFileFormat filePath with
  | None => In (Js.toLowerCase (Path.extname filePath)) validExtensions
  | Some message =>
      ¬ In (Js.toLowerCase (Path.extname filePath)) validExtensions
      ∧ message ≠ ""
  end.
Proof.
  unfold validateContextFileFormat.
  destruct (Js.arrayIncludes validExtensions _) eqn:Hvalid; cbn [negb].
  - by apply arrayIncludes_In.
  - split; [|done]. intros Hin%arrayIncludes_In. congruence.
Qed.

Lemma loadContextFile_cases host filePath cwd :
  let p := resolved host filePath cwd in
  (∃ message,
     loadContextFile host filePath cwd = Returned (failed p message)
     ∧ message ≠ ""
     ∧ (existsSync host p = false
        ∨ ¬ In (Js.toLowerCase (Path.extname p)) validExtensions
        ∨ (∃ error, statSync host p = Threw error)
        ∨ (∃ size, statSync host p = Returned size
                   ∧ (size > MAX_CONTEXT_FILE_SIZE)%Z)
        ∨ (∃ error, readFileSync host p = Threw error)))
  ∨ (∃ size content,
       loadContextFile host filePath cwd
       = Returned (File.mk p true (Some content) (Some size) None)
       ∧ Loadable host p size content).
Proof.
  intros p. unfold loadContextFile. fold (resolved host filePath cwd).
  fold p. destruct (existsSync host p) eqn:Hexists; cbn [negb].
  2:{ left. eexists. split; [done|]. split; [done | by left]. }
  pose proof (validateContextFileFormat_spec p) as Hformat.
  destruct (validateContextFileFormat p) as [formatError|].
  { destruct Hformat as [Hinvalid Hmessage].
    left. exists formatError. split; [done|]. split; [done|]. by right; left. }
  destruct (statSync host p) as [size|error] eqn:Hstat.
  2:{ left. eexists. split; [done|]. split; [done|].
      right; right; left. by exists error. }
  destruct (Z.gtb_spec size MAX_CONTEXT_FILE_SIZE) as [Hbig|Hsmall].
  { left. eexists. split; [done|]. split; [done|].
    right; right; right; left. exists size. split; [done | lia]. }
  destruct (readFileSync host p) as [content|error] eqn:Hread.
  - right. exists size, content. split; [done|]. repeat split; done.
  - left. eexists. split; [done|]. split; [done|].
    right; right; right; right. by exists error.
Qed.

(** C10 as stated fails on a file whose extension differs from a valid one
    by letter case only: [NOTES.MD] has the extension [.MD], which is not
    one of [.md], [.markdown], [.txt], and is loaded all the same, because
    the extension is lower-cased before it is looked up. *)
Lemma C10_counterexample :
  Path.extname "/w/NOTES.MD" = ".MD"
  ∧ Js.arrayIncludes validExtensions ".MD" = false
  ∧ loadContextFile sampleHost "NOTES.MD" "/w"
    = Returned (File.mk "/w/NOTES.MD" true (Some "notes") (Some 5%Z) None).
Proof. repeat split. Qed.

(** C10, amended.  [loadContextFile] never throws and reports the resolved
    path.  Its result has [success = false], no content, no size and a
    (non-empty) error message whenever the file does not exist, or its
    extension, lower-cased, is none of [.md], [.markdown], [.txt], or its
    size exceeds 100 * 1024 bytes; more generally whenever [success] is
    [false].  It has [success = true] exactly when the file exists, has a
    valid extension up to letter case, reports a size within the limit and
    can be read; the result then carries the text read and the size
    reported, and no error. *)
Theorem C10_load_context_file :
  ∀ (host : Host) (filePath cwd : string),
    let p := resolved host filePath cwd in
    MAX_CONTEXT_FILE_SIZE = 102400%Z
    ∧ ∃ r,
        loadContextFile host filePath cwd = Returned r
        ∧ File.path r = p
        ∧ ((existsSync host p = false
            ∨ ¬ In (Js.toLowerCase (Path.extname p)) validExtensions
            ∨ (∃ size, statSync host p = Returned size
                       ∧ (size > MAX_CONTEXT_FILE_SIZE)%Z)) →
           File.success r = false)
        ∧ (File.success r = false →
           File.content r = None ∧ File.sizeBytes r = None
           ∧ ∃ message, File.error r = Some message ∧ message ≠ "")
        ∧ (File.success r = true ↔
           ∃ size content, Loadable host p size content)
        ∧ (∀ size content,
             Loadable host p size content →
             r = File.mk p true (Some content) (Some size) None).
Proof.
  intros host filePath cwd p. split; [reflexivity|].
  destruct (loadContextFile_cases host filePath cwd)
    as [(message & Hr & Hmessage & Hwhy)
       |(size & content & Hr & Hloadable)]; fold p in Hr, Hwhy || fold p in Hr.
  - exists (failed p message). split; [done|]. split; [done|].
    assert (Hnot : ∀ size content, ¬ Loadable host p size content).
    { intros size content (Hexists & Hext & Hstat & Hsize & Hread).
      destruct Hwhy as [?|[?|[[? ?]|[(size' & ? & ?)|[? ?]]]]];
        try congruence; try done.
      all: assert (size' = size) by congruence; lia. }
    split; [done|]. split; [intros _; eauto|]. split.
    + split; [done|]. intros (size & content & Hl). by destruct (Hnot _ _ Hl).
    + intros size content Hl. by destruct (Hnot _ _ Hl).
  - fold p in Hloadable. eexists. split; [exact Hr|]. split; [done|].
    destruct Hloadable as (Hexists & Hext & Hstat & Hsize & Hread).
    split.
    { intros [?|[?|(size' & ? & ?)]]; try congruence; try done.
      all: assert (size' = size) by congruence; lia. }
    split; [done|]. split.
    + split; [|done]. intros _. exists size, content. repeat split; done.
    + intros size' content' (_ & _ & Hstat' & _ & Hread').
      congruence.
Qed.

(** The sample host: a loadable file, a file that is too large, a file of
    the wrong format and a missing file. *)
Lemma C10_load_context_file_witness :
  (∃ r,
     loadContextFile sampleHost "ctx.md" "/w" = Returned r
     ∧ r = File.mk "/w/ctx.md" true (Some "project ctx.") (Some 12%Z) None)
  ∧ (∃ r,
       loadContextFile sampleHost "/w/big.md" "/elsewhere" = Returned r
       ∧ File.success r = false
       ∧ File.error r
         = Some "Context file too large: 100.0KB exceeds 100KB limit")
  ∧ (∃ r,
       loadContextFile sampleHost "data.json" "/w" = Returned r
       ∧ File.success r = false)
  ∧ (∃ r,
       loadContextFile sampleHost "gone.md" "/w" = Returned r
       ∧ File.success r = false ∧ File.content r = None).
Proof.
  split; [|split; [|split]].
  - destruct (C10_load_context_file sampleHost "ctx.md" "/w")
      as (_ & r & Hr & _ & _ & _ & _ & Hload).
    exists r. split; [exact Hr|]. apply Hload.
    repeat split; try reflexivity; [cbn; tauto | by vm_compute].
  - destruct (C10_load_context_file sampleHost "/w/big.md" "/elsewhere")
      as (_ & r & Hr & _ & Hfail & _).
    exists r. split; [exact Hr|]. split.
    + apply Hfail. right; right. exists 102401%Z. split; [reflexivity|].
      by vm_compute.
    + vm_compute in Hr. by injection Hr as <-.
  - destruct (C10_load_context_file sampleHost "data.json" "/w")
      as (_ & r & Hr & _ & Hfail & _).
    exists r. split; [exact Hr|]. apply Hfail. right; left.
    vm_compute. intuition discriminate.
  - destruct (C10_load_context_file sampleHost "gone.md" "/w")
      as (_ & r & Hr & _ & Hfail & Hempty & _).
    exists r. split; [exact Hr|].
    assert (File.success r = false) as Hfalse by (apply Hfail; by left).
    split; [exact Hfalse | apply (Hempty Hfalse)].
Defined.

(** ** C9: loading several context files *)

Lemma loadContextFile_loaded host filePath cwd :
  loadContextFile host filePath cwd = Returned (loaded host cwd filePath).
Proof.
  unfold loaded.
  by destruct (loadContextFile_cases host filePath cwd)
    as [(message & -> & _)|(size & content & -> & _)].
Qed.

Lemma record_results result st :
  results (record result st) = (results st ++ [result])%list.
Proof.
  unfold record.
  by destruct (File.success result && Js.truthy (File.content result)),
              (Js.truthy (File.error result)).
Qed.

Lemma record_ticks result st : ticks (record result st) = ticks st.
Proof.
  unfold record.
  by destruct (File.success result && Js.truthy (File.content result)),
              (Js.truthy (File.error result)).
Qed.

(** The loop records the per-file results of a prefix of the paths, the
    whole list unless a time check fails. *)
Lemma loadLoop_results host cwd startTime filePaths :
  ∀ st,
    ∃ (k : nat) st',
      (k ≤ length filePaths)%nat
      ∧ loadLoop host cwd startTime filePaths st = Returned st'
      ∧ results st'
        = (results st ++ map (loaded host cwd) (take k filePaths))%list
      ∧ ((∀ i, (ticks st ≤ i < ticks st + length filePaths)%nat →
               (now host i - startTime ≤ MAX_LOAD_TIME_MS)%Z) →
         k = length filePaths)
      ∧ (filePaths = [] → errors st' = errors st).
Proof.
  induction filePaths as [|filePath rest IH]; intros st.
  - exists 0%nat, st. cbn. by rewrite app_nil_r.
  - cbn [loadLoop].
    destruct (Z.gtb_spec (now host (ticks st) - startTime) MAX_LOAD_TIME_MS)
      as [Hlate|Hintime].
    + eexists 0%nat, _. split; [cbn; lia|]. split; [done|].
      cbn [results take map]. rewrite app_nil_r. split; [done|].
      split; [|done]. intros Hclock.
      specialize (Hclock (ticks st) ltac:(cbn; lia)). lia.
    + rewrite loadContextFile_loaded.
      destruct (IH (record (loaded host cwd filePath)
                      (mkLoop (results st) (errors st) (contents st)
                              (totalSize st) (S (ticks st)))))
        as (k & st' & Hk & Hloop & Hresults & Hall & _).
      exists (S k), st'. split; [cbn; lia|]. split; [done|].
      rewrite Hresults, record_results. cbn [results take map].
      rewrite <- app_assoc. split; [done|]. split; [|done].
      intros Hclock. cbn [length]. rewrite Hall; [done|].
      intros i Hi. apply Hclock. rewrite record_ticks in Hi. cbn in *. lia.
Qed.

(** C9.  [loadContextFiles] returns a result whose [files] are the per-file
    results of a prefix of the paths (of all paths when every reading of
    the clock in the loop is within the time limit), and whose [success]
    is [true] exactly when [files] is not empty and every per-file result
    in it succeeded.  Hence one failed file makes [success] [false], and an
    empty list of paths gives [success = false] with no files and no
    errors. *)
Theorem C9_load_context_files :
  ∀ (host : Host) (filePaths : list string) (cwd : string),
    ∃ R,
      loadContextFiles host filePaths cwd = Returned R
      ∧ (∃ k : nat,
           (k ≤ length filePaths)%nat
           ∧ Load.files R = map (loaded host cwd) (take k filePaths))
      ∧ ((∀ i, (1 ≤ i ≤ length filePaths)%nat →
               (now host i - now host 0 ≤ MAX_LOAD_TIME_MS)%Z) →
         Load.files R = map (loaded host cwd) filePaths)
      ∧ (Load.success R = true ↔
         Load.files R ≠ []
         ∧ Forall (λ r, File.success r = true) (Load.files R))
      ∧ (∀ r, In r (Load.files R) → File.success r = false →
              Load.success R = false)
      ∧ (filePaths = [] →
         Load.success R = false ∧ Load.files R = [] ∧ Load.errors R = []).
Proof.
  intros host filePaths cwd. unfold loadContextFiles.
  destruct (loadLoop_results host cwd (now host 0) filePaths
              (mkLoop [] [] [] 0 1))
    as (k & st & Hk & -> & Hresults & Hall & Herrors).
  cbn [results app] in Hresults.
  eexists. split; [reflexivity|].
  cbn [Load.files Load.success Load.errors].
  assert (Hsuccess :
    (0 <? length (results st))%nat && forallb File.success (results st) = true
    ↔ results st ≠ [] ∧ Forall (λ r, File.success r = true) (results st)).
  { rewrite andb_true_iff, Nat.ltb_lt, forallb_forall, Forall_forall.
    setoid_rewrite list_elem_of_In.
    split; intros [Hlen ?]; (split; [|done]); destruct (results st);
      cbn in *; done || lia. }
  split; [by exists k|]. split.
  { intros Hclock. rewrite Hresults, Hall; [by rewrite take_ge|].
    intros i Hi. apply Hclock. cbn in Hi. lia. }
  split; [exact Hsuccess|]. split.
  - intros r Hin Hfailed. apply not_true_is_false. intros Htrue.
    apply Hsuccess in Htrue as [_ Hevery].
    rewrite Forall_forall in Hevery.
    apply list_elem_of_In, Hevery in Hin. congruence.
  - intros ->. rewrite (Herrors eq_refl), Hresults. by rewrite take_nil.
Qed.

(** The sample host, whose clock advances one millisecond per reading: two
    loadable files succeed together, one oversized file among loadable
    ones makes the whole fail, and no path at all fails without error. *)
Lemma C9_load_context_files_witness :
  (∃ R,
     loadContextFiles sampleHost ["NOTES.MD"; "ctx.md"] "/w" = Returned R
     ∧ Load.success R = true ∧ length (Load.files R) = 2%nat)
  ∧ (∃ R,
       loadContextFiles sampleHost ["ctx.md"; "big.md"] "/w" = Returned R
       ∧ Load.success R = false)
  ∧ (∃ R,
       loadContextFiles sampleHost [] "/w" = Returned R
       ∧ Load.success R = false ∧ Load.files R = [] ∧ Load.errors R = []).
Proof.
  split; [|split].
  - destruct (C9_load_context_files sampleHost ["NOTES.MD"; "ctx.md"] "/w")
      as (R & HR & _ & Hfiles & Hsuccess & _).
    exists R. split; [exact HR|].
    assert (Hclock : ∀ i : nat, (1 ≤ i ≤ 2)%nat →
              (now sampleHost i - now sampleHost 0 ≤ MAX_LOAD_TIME_MS)%Z)
      by (intros i Hi; unfold MAX_LOAD_TIME_MS; cbn; lia).
    rewrite (Hfiles Hclock).
    split; [|reflexivity]. apply Hsuccess. rewrite (Hfiles Hclock).
    split; [done|]. repeat constructor.
  - destruct (C9_load_context_files sampleHost ["ctx.md"; "big.md"] "/w")
      as (R & HR & _ & Hfiles & _ & Hfailed & _).
    exists R. split; [exact HR|].
    apply (Hfailed (loaded sampleHost "/w" "big.md")); [|reflexivity].
    rewrite Hfiles; [cbn; tauto|].
    intros i Hi; unfold MAX_LOAD_TIME_MS; cbn in *; lia.
  - destruct (C9_load_context_files sampleHost [] "/w")
      as (R & HR & _ & _ & _ & _ & Hempty).
    exists R. split; [exact HR | by apply Hempty].
Defined.

(** ** The walk as a replay of depth-first steps *)

Lemma cutAfter_0 events : cutAfter 0 events = [].
Proof. by destruct events. Qed.

Lemma filesOf_cons event events :
  filesOf (event :: events)
  = ((if isCount event then 1 else 0) + filesOf events)%nat.
Proof.
  unfold filesOf. rewrite filter_cons.
  destruct (isCount event); by case_decide.
Qed.

Lemma directoriesOf_cons event events :
  directoriesOf (event :: events)
  = ((if isCount event then 0 else 1) + directoriesOf events)%nat.
Proof.
  unfold directoriesOf. rewrite filter_cons.
  destruct (isCount event); by case_decide.
Qed.

Lemma filesOf_app events1 events2 :
  filesOf (events1 ++ events2) = (filesOf events1 + filesOf events2)%nat.
Proof. unfold filesOf. by rewrite filter_app, length_app. Qed.

Lemma directoriesOf_app events1 events2 :
  directoriesOf (events1 ++ events2)
  = (directoriesOf events1 + directoriesOf events2)%nat.
Proof. unfold directoriesOf. by rewrite filter_app, length_app. Qed.

Lemma cutAfter_app room events1 events2 :
  cutAfter room (events1 ++ events2)
  = (cutAfter room events1
     ++ cutAfter (room - filesOf (cutAfter room events1)) events2)%list.
Proof.
  revert room. induction events1 as [|event events1 IH]; intros room.
  - cbn. by rewrite Nat.sub_0_r.
  - destruct room as [|room]; [by rewrite !cutAfter_0|].
    destruct event as [|chain name]; cbn [app cutAfter];
      rewrite IH, filesOf_cons; cbn [isCount]; done.
Qed.

Lemma replay_app events1 events2 result :
  replay (events1 ++ events2) result = replay events2 (replay events1 result).
Proof. unfold replay. apply foldl_app. Qed.

Lemma replay_files events :
  ∀ result,
    Scan.files (replay events result)
    = (Scan.files result + filesOf events)%nat.
Proof.
  induction events as [|event events IH]; intros result.
  - cbn. unfold filesOf. cbn. lia.
  - change (replay (event :: events) result)
      with (replay events (applyEvent result event)).
    rewrite IH, filesOf_cons. destruct event; cbn; lia.
Qed.

Lemma replay_directories events :
  ∀ result,
    Scan.directories (replay events result)
    = (Scan.directories result + directoriesOf events)%nat.
Proof.
  induction events as [|event events IH]; intros result.
  - cbn. unfold directoriesOf. cbn. lia.
  - change (replay (event :: events) result)
      with (replay events (applyEvent result event)).
    rewrite IH, directoriesOf_cons. destruct event; cbn; lia.
Qed.

Lemma Replayed_nil maxFiles before : Replayed maxFiles [] before (false, before).
Proof. by unfold Replayed. Qed.

Lemma Replayed_full maxFiles events before :
  (maxFiles ≤ Scan.files before)%nat →
  Replayed maxFiles events before (true, before).
Proof.
  intros Hfull. unfold Replayed.
  replace (maxFiles - Scan.files before)%nat with 0%nat by lia.
  rewrite cutAfter_0. by cbn.
Qed.

Lemma Replayed_step maxFiles event before :
  (Scan.files before < maxFiles)%nat →
  Replayed maxFiles [event] before (false, applyEvent before event).
Proof.
  intros Hroom. unfold Replayed.
  destruct (maxFiles - Scan.files before)%nat as [|room] eqn:Hsub; [lia|].
  by destruct event.
Qed.

Lemma Replayed_app maxFiles events1 events2 before out1 out2 :
  Replayed maxFiles events1 before out1 →
  (out1.1 = false → Replayed maxFiles events2 out1.2 out2) →
  Replayed maxFiles (events1 ++ events2) before
           (if out1.1 then (true, out1.2) else out2).
Proof.
  intros (Hstate & Hcap & Hall) Hnext.
  pose proof (replay_files (cutAfter (maxFiles - Scan.files before) events1)
                before) as Hfiles.
  rewrite <- Hstate in Hfiles.
  destruct out1 as [[] mid]; cbn [fst snd] in *.
  - specialize (Hcap eq_refl). unfold Replayed. cbn [fst snd].
    rewrite cutAfter_app.
    replace (maxFiles - Scan.files before
             - filesOf (cutAfter (maxFiles - Scan.files before) events1))%nat
      with 0%nat by lia.
    rewrite cutAfter_0, app_nil_r. done.
  - destruct (Hnext eq_refl) as (Hstate2 & Hcap2 & Hall2).
    specialize (Hall eq_refl).
    assert (Hroom : (maxFiles - Scan.files mid
                     = maxFiles - Scan.files before
                       - filesOf (cutAfter (maxFiles - Scan.files before)
                                           events1))%nat) by lia.
    unfold Replayed. rewrite cutAfter_app, <- Hroom, replay_app, <- Hstate.
    split; [done|]. split; [done|].
    intros Hfalse. by rewrite (Hall2 Hfalse), Hall.
Qed.

Lemma Replayed_countDirectory maxFiles events before out :
  (Scan.files before < maxFiles)%nat →
  Replayed maxFiles events (countDirectory before) out →
  Replayed maxFiles (EnterDirectory :: events) before out.
Proof.
  intros Hroom Hrest.
  pose proof (Replayed_app maxFiles [EnterDirectory] events before
                (false, countDirectory before) out
                (Replayed_step _ EnterDirectory _ Hroom) (λ _, Hrest)) as H.
  exact H.
Qed.

Lemma scanLoop_Replayed maxFiles entries :
  ∀ before chain,
    Replayed maxFiles (eventsIn walkEvents chain entries) before
             (scanLoop maxFiles (relativeOf chain) entries before).
Proof.
  induction entries as [| name rest IH | name rest IH | name rest IH
                        | name sub rest IHsub IH] using entries_ind;
    intros before chain.
  - apply Replayed_nil.
  - rewrite scanLoop_cons.
    limit_check maxFiles before; [by apply Replayed_full|].
    pose proof (Replayed_step maxFiles (CountFile chain name) before) as Hfile.
    exact (Replayed_app maxFiles [CountFile chain name] _ before (false, _) _
             (Hfile ltac:(lia)) (λ _, IH _ chain)).
  - rewrite scanLoop_cons.
    limit_check maxFiles before; [by apply Replayed_full | apply IH].
  - rewrite scanLoop_cons. cbn [eventsIn].
    limit_check maxFiles before; [by apply Replayed_full|].
    destruct (shouldIgnoreDir name); [apply IH|].
    rewrite scanDirectory_unfold. cbn [Scan.files countDirectory].
    limit_check maxFiles before; [lia|]. cbn [fst snd walkEvents app].
    apply Replayed_countDirectory; [done | apply IH].
  - rewrite scanLoop_cons. cbn [eventsIn].
    limit_check maxFiles before; [by apply Replayed_full|].
    destruct (shouldIgnoreDir name); [apply IH|].
    rewrite scanDirectory_unfold. cbn [Scan.files countDirectory].
    limit_check maxFiles before; [lia|].
    rewrite relativeOf_snoc. cbn [walkEvents].
    apply Replayed_countDirectory; [done|].
    pose proof (IHsub (countDirectory before) (chain ++ [name])%list) as Hsub.
    exact (Replayed_app _ _ _ _ _ _ Hsub (λ _, IH _ chain)).
Qed.

Lemma scanDirectory_Replayed maxFiles dir before chain :
  Replayed maxFiles (walkEvents chain dir) before
           (scanDirectory maxFiles dir before (relativeOf chain)).
Proof.
  rewrite scanDirectory_unfold.
  limit_check maxFiles before; [by apply Replayed_full|].
  destruct dir as [name | name [entries|] | name]; try apply Replayed_nil.
  apply scanLoop_Replayed.
Qed.

Lemma filesOf_walkEvents entries :
  ∀ chain,
    filesOf (eventsIn walkEvents chain entries)
    = length (eligibleIn eligibleFiles chain entries).
Proof.
  induction entries as [| name rest IH | name rest IH | name rest IH
                        | name sub rest IHsub IH] using entries_ind;
    intros chain; cbn [eventsIn eligibleIn]; try done.
  - rewrite filesOf_cons. cbn [isCount length]. by rewrite IH.
  - destruct (shouldIgnoreDir name); [done|].
    rewrite filesOf_cons. cbn [isCount walkEvents eligibleFiles app].
    by rewrite IH.
  - destruct (shouldIgnoreDir name); [done|].
    rewrite filesOf_cons, filesOf_app, length_app.
    cbn [isCount walkEvents eligibleFiles]. by rewrite IHsub, IH.
Qed.

Lemma cutAfter_counts room events :
  (filesOf (cutAfter room events) ≤ filesOf events
   ∧ directoriesOf (cutAfter room events) ≤ directoriesOf events)%nat.
Proof.
  revert room. induction events as [|event events IH]; intros room; [done|].
  destruct room as [|room]; [rewrite cutAfter_0; cbn; lia|].
  destruct event as [|chain name]; cbn [cutAfter];
    rewrite !filesOf_cons, !directoriesOf_cons; cbn [isCount].
  - destruct (IH (S room)). lia.
  - destruct (IH room). lia.
Qed.

Lemma cutAfter_mono room1 room2 events :
  (room1 ≤ room2)%nat →
  ∃ more, cutAfter room2 events = (cutAfter room1 events ++ more)%list.
Proof.
  revert room1 room2.
  induction events as [|event events IH]; intros room1 room2 Hle.
  - by exists [].
  - destruct room1 as [|room1]; [rewrite cutAfter_0; eauto|].
    destruct room2 as [|room2]; [lia|].
    destruct event as [|chain name]; cbn [cutAfter].
    + destruct (IH (S room1) (S room2) Hle) as [more ->]. by exists more.
    + destruct (IH room1 room2 ltac:(lia)) as [more ->]. by exists more.
Qed.

(** Replaying steps only adds: no counter shrinks and the marker files
    recorded so far stay in front. *)
Lemma replay_grows events :
  ∀ result,
    (Scan.files result ≤ Scan.files (replay events result))%nat
    ∧ (Scan.directories result ≤ Scan.directories (replay events result))%nat
    ∧ Scan.agentFiles result `prefix_of` Scan.agentFiles (replay events result)
    ∧ ∀ type,
        (default 0 (Scan.filesByType result !! type)
         ≤ default 0 (Scan.filesByType (replay events result) !! type))%nat.
Proof.
  induction events as [|event events IH]; intros result.
  - cbn. repeat split; done.
  - change (replay (event :: events) result)
      with (replay events (applyEvent result event)).
    destruct (IH (applyEvent result event)) as (Hf & Hd & Ha & Ht).
    destruct event as [|chain name]; cbn [applyEvent] in *.
    + repeat split; cbn in *; try lia; done.
    + split; [cbn in *; lia|]. split; [cbn in *; lia|]. split.
      * etrans; [|exact Ha]. unfold countFile. cbn [Scan.agentFiles].
        destruct (String.eqb name "AGENTS.md"); [|done].
        by apply prefix_app_r.
      * intros type. etrans; [|apply Ht].
        unfold countFile. cbn [Scan.filesByType].
        destruct (detectFileType name) as [fileType|]; [|done].
        destruct (decide (fileType = type)) as [->|Hne].
        -- rewrite lookup_insert_eq. cbn. lia.
        -- by rewrite lookup_insert_ne.
Qed.

(** X1.  The result of [scanDirectory] is the result it was given with the
    steps of the depth-first walk replayed on it, up to and including the
    file that reaches the cap: the directories entered before that file are
    counted, nothing after it is.  For [analyzeProject] the steps are
    replayed on a fresh result with the cap 10,000. *)
Theorem X1_walk_is_cut_traversal :
  (∀ maxFiles dir result chain,
     (scanDirectory maxFiles dir result (relativeOf chain)).2
     = replay (cutAfter (maxFiles - Scan.files result)
                        (walkEvents chain dir)) result)
  ∧ (∀ amb rootPath name entries,
       ∃ r,
         analyzeProject amb rootPath (Some (DirEnt name (Some entries)))
         = Returned r
         ∧ Scan.mk (totalFiles r) (totalDirectories r) (filesByType r)
                   (agentFiles r)
           = replay (cutAfter 10000
                       (walkEvents [] (DirEnt name (Some entries))))
                    freshScan).
Proof.
  split.
  - intros maxFiles dir result chain.
    by destruct (scanDirectory_Replayed maxFiles dir result chain) as [-> _].
  - intros amb rootPath name entries.
    destruct (analyzeProject_readable amb rootPath name entries)
      as (r & Hr & Hscan & _).
    exists r. split; [done|].
    destruct (scanDirectory_Replayed 10000 (DirEnt name (Some entries))
                freshScan []) as [Hstate _].
    change (relativeOf []) with "" in Hstate.
    rewrite <- Hscan in Hstate. cbn [snd Scan.files freshScan] in Hstate.
    by rewrite Nat.sub_0_r in Hstate.
Qed.

(** X2.  [analyzeProject] never counts more than the tree holds:
    [totalFiles] is at most the number of eligible files and
    [totalDirectories] at most the number of directories an unbounded walk
    would enter.  When [truncated] is [false] the result is complete: both
    counters are exactly those numbers and the result is the replay of
    every step of the walk. *)
Theorem X2_complete_unless_truncated :
  ∀ (amb : Ambient) (rootPath name : string) (entries : list Dirent),
    let root := DirEnt name (Some entries) in
    ∃ r,
      analyzeProject amb rootPath (Some root) = Returned r
      ∧ filesOf (walkEvents [] root) = length (eligibleFiles [] root)
      ∧ (totalFiles r ≤ filesOf (walkEvents [] root))%nat
      ∧ (totalDirectories r ≤ directoriesOf (walkEvents [] root))%nat
      ∧ (truncated r = false →
         totalFiles r = filesOf (walkEvents [] root)
         ∧ totalDirectories r = directoriesOf (walkEvents [] root)
         ∧ Scan.mk (totalFiles r) (totalDirectories r) (filesByType r)
                   (agentFiles r)
           = replay (walkEvents [] root) freshScan).
Proof.
  intros amb rootPath name entries root.
  destruct (analyzeProject_readable amb rootPath name entries)
    as (r & Hr & Hscan & _).
  exists r. split; [done|]. split; [apply filesOf_walkEvents|].
  destruct (scanDirectory_Replayed 10000 root freshScan [])
    as (Hstate & _ & Hall).
  change (relativeOf []) with "" in Hstate, Hall.
  fold root in Hscan. rewrite <- Hscan in Hstate, Hall.
  cbn [fst snd Scan.files freshScan] in Hstate, Hall.
  rewrite Nat.sub_0_r in Hstate, Hall.
  pose proof (f_equal Scan.files Hstate) as Hfiles.
  pose proof (f_equal Scan.directories Hstate) as Hdirs.
  rewrite replay_files in Hfiles. rewrite replay_directories in Hdirs.
  cbn [Scan.files Scan.directories freshScan] in Hfiles, Hdirs.
  rewrite Nat.add_0_l in Hfiles, Hdirs.
  destruct (cutAfter_counts 10000 (walkEvents [] root)) as [Hf Hd].
  split; [lia|]. split; [lia|].
  intros Hfalse. rewrite (Hall Hfalse) in *. done.
Qed.

(** The tree with an ignored [node_modules]: not truncated, so all ten
    eligible files and all three directories are counted. *)
Lemma X2_complete_unless_truncated_witness :
  ∃ r,
    analyzeProject sampleAmbient "/proj" (Some nodeModulesTree) = Returned r
    ∧ truncated r = false
    ∧ totalFiles r = length (eligibleFiles [] nodeModulesTree)
    ∧ totalDirectories r = 3%nat.
Proof.
  destruct (X2_complete_unless_truncated sampleAmbient "/proj" "proj"
              (match nodeModulesTree with
               | DirEnt _ (Some entries) => entries
               | _ => []
               end)) as (r & Hr & Hlen & _ & _ & Hcomplete).
  exists r. split; [exact Hr|].
  assert (Hflag : truncated r = false)
    by (vm_compute in Hr; by injection Hr as <-).
  split; [exact Hflag|].
  destruct (Hcomplete Hflag) as (Hfiles & Hdirs & _).
  split; [by rewrite Hfiles, Hlen|]. rewrite Hdirs. vm_compute. reflexivity.
Defined.

(** X3.  Raising the cap only extends the result of a walk: with a larger
    cap no counter is smaller, no per-type count is smaller, and the marker
    files found with the smaller cap are the first ones found with the
    larger cap. *)
Theorem X3_larger_cap_extends :
  ∀ (cap1 cap2 : nat) (dir : Dirent) (result : ScanResult)
    (chain : list string),
    (cap1 ≤ cap2)%nat →
    let out1 := (scanDirectory cap1 dir result (relativeOf chain)).2 in
    let out2 := (scanDirectory cap2 dir result (relativeOf chain)).2 in
    (Scan.files out1 ≤ Scan.files out2)%nat
    ∧ (Scan.directories out1 ≤ Scan.directories out2)%nat
    ∧ Scan.agentFiles out1 `prefix_of` Scan.agentFiles out2
    ∧ ∀ type,
        (default 0 (Scan.filesByType out1 !! type)
         ≤ default 0 (Scan.filesByType out2 !! type))%nat.
Proof.
  intros cap1 cap2 dir result chain Hle out1 out2. subst out1 out2.
  destruct (scanDirectory_Replayed cap1 dir result chain) as [-> _].
  destruct (scanDirectory_Replayed cap2 dir result chain) as [-> _].
  destruct (cutAfter_mono (cap1 - Scan.files result) (cap2 - Scan.files result)
              (walkEvents chain dir) ltac:(lia)) as [more ->].
  rewrite replay_app. apply replay_grows.
Qed.

(** The mixed tree walked with the caps 2 and 3. *)
Lemma X3_larger_cap_extends_witness :
  Scan.agentFiles (scanDirectory 2 mixedTree freshScan "").2 = ["AGENTS.md"]
  ∧ Scan.agentFiles (scanDirectory 3 mixedTree freshScan "").2
    = ["AGENTS.md"; "src/deep/er/AGENTS.md"]
  ∧ Scan.agentFiles (scanDirectory 2 mixedTree freshScan "").2
    `prefix_of` Scan.agentFiles (scanDirectory 3 mixedTree freshScan "").2.
Proof.
  split; [reflexivity|]. split; [reflexivity|].
  apply (X3_larger_cap_extends 2 3 mixedTree freshScan []). lia.
Defined.

(** ** What a result of the walk looks like *)

Lemma detectFileType_known name type :
  detectFileType name = Some type → In type (map fst FILE_PATTERNS).
Proof.
  intros (suffixes & _ & Hin & _)%firstMatch_Some.
  apply in_map_iff. by exists (type, suffixes).
Qed.

Lemma endsWith_append (a b : string) : Js.endsWith (a ++ b) b = true.
Proof.
  induction a as [|c a IH].
  - apply endsWith_refl.
  - change (String c a ++ b) with (String c (a ++ b)).
    cbn [Js.endsWith]. rewrite IH. apply orb_true_r.
Qed.

Lemma length_filter_impl {A} (p q : A → bool) (l : list A) :
  (∀ x, p x = true → q x = true) →
  (length (filter (λ x, Is_true (p x)) l)
   ≤ length (filter (λ x, Is_true (q x)) l))%nat.
Proof.
  intros Himpl. induction l as [|x l IH]; [done|].
  rewrite !filter_cons. specialize (Himpl x).
  destruct (p x), (q x); repeat case_decide; try done; cbn [length];
    try lia. all: by discriminate Himpl.
Qed.

(** X4.  In every result of [analyzeProject] the keys of [filesByType]
    are type names of the pattern table, and every count stored is at
    least 1 and at most [totalFiles]: a type without files has no entry,
    never an entry of zero. *)
Theorem X4_filesByType_entries :
  ∀ (amb : Ambient) (rootPath name : string) (entries : list Dirent),
    ∃ r,
      analyzeProject amb rootPath (Some (DirEnt name (Some entries)))
      = Returned r
      ∧ ∀ type count,
          filesByType r !! type = Some count →
          In type (map fst FILE_PATTERNS)
          ∧ (1 ≤ count ≤ totalFiles r)%nat.
Proof.
  intros amb rootPath name entries.
  destruct (analyzeProject_readable amb rootPath name entries)
    as (r & Hr & Hscan & _).
  exists r. split; [done|]. intros type count Hlookup.
  pose proof (scanDirectory_invariant
    (λ result, ∀ type count,
       Scan.filesByType result !! type = Some count →
       In type (map fst FILE_PATTERNS) ∧ (1 ≤ count)%nat) 10000) as Hinv.
  specialize (Hinv
    ltac:(intros file rel result Hresult type' count'; unfold countFile;
          cbn [Scan.filesByType];
          destruct (detectFileType file) as [fileType|] eqn:Htype;
          [|by apply Hresult];
          destruct (decide (fileType = type')) as [->|Hne];
          [rewrite lookup_insert_eq; intros [= <-];
           split; [by eapply detectFileType_known | lia]
          |rewrite lookup_insert_ne by done; apply Hresult])
    ltac:(done) (DirEnt name (Some entries)) freshScan ""
    ltac:(intros ? ?; cbn; by rewrite lookup_empty)).
  rewrite <- Hscan in Hinv. cbn [snd Scan.filesByType] in Hinv.
  destruct (Hinv type count Hlookup) as [Hknown Hpositive].
  split; [done|]. split; [done|].
  destruct (scanDirectory_Walked 10000 (DirEnt name (Some entries))
              freshScan []) as (Hfiles & _ & Htypes & _).
  change (relativeOf []) with "" in Hfiles, Htypes.
  rewrite <- Hscan in Hfiles, Htypes.
  cbn [fst snd Scan.files Scan.filesByType freshScan] in Hfiles, Htypes.
  specialize (Htypes type). rewrite Hlookup, lookup_empty in Htypes.
  cbn [default from_option id] in Htypes. rewrite Htypes, Hfiles.
  etrans; [apply length_filter|]. lia.
Qed.

(** X5.  Every path in [agentFiles] is [AGENTS.md] itself or ends with
    [/AGENTS.md]; in particular none is empty, so the [(root)] label that
    [printHumanResult] keeps for an empty path is never printed.  There
    are at most as many marker files as files counted as markdown, and at
    most as many of those as [totalFiles]. *)
Theorem X5_agentFiles_entries :
  ∀ (amb : Ambient) (rootPath name : string) (entries : list Dirent),
    ∃ r,
      analyzeProject amb rootPath (Some (DirEnt name (Some entries)))
      = Returned r
      ∧ Forall (λ p, (p = "AGENTS.md" ∨ Js.endsWith p "/AGENTS.md" = true)
                     ∧ p ≠ "") (agentFiles r)
      ∧ (length (agentFiles r)
         ≤ default 0 (filesByType r !! "markdown"))%nat
      ∧ (default 0 (filesByType r !! "markdown") ≤ totalFiles r)%nat.
Proof.
  intros amb rootPath name entries.
  destruct (analyzeProject_readable amb rootPath name entries)
    as (r & Hr & Hscan & _).
  exists r. split; [done|].
  destruct (scanDirectory_Walked 10000 (DirEnt name (Some entries))
              freshScan []) as (Hfiles & Hagents & Htypes & _).
  change (relativeOf []) with "" in Hfiles, Hagents, Htypes.
  rewrite <- Hscan in Hfiles, Hagents, Htypes.
  cbn [fst snd Scan.files Scan.filesByType Scan.agentFiles freshScan app]
    in Hfiles, Hagents, Htypes.
  specialize (Htypes "markdown"). rewrite lookup_empty in Htypes.
  cbn [default from_option id] in Htypes.
  split; [|split].
  - rewrite Hagents. apply Forall_forall. intros p Hp.
    apply list_elem_of_In, in_map_iff in Hp as ([chain file] & <- & Hin).
    apply list_elem_of_In, list_elem_of_filter in Hin as [Hmarker _].
    apply Is_true_true, String.eqb_eq in Hmarker. cbn [snd] in Hmarker.
    subst file. unfold pathOf, pathJoin. cbn [fst snd].
    destruct (String.eqb (relativeOf chain) ""); [by split; [left|]|].
    split.
    + right. change ("/" ++ "AGENTS.md") with "/AGENTS.md".
      apply endsWith_append.
    + intros Hempty. by apply append_empty in Hempty as Hrel;
        rewrite Hrel in Hempty.
  - rewrite Hagents, Htypes, length_map. apply length_filter_impl.
    intros [chain file] Hmarker. unfold isMarker, hasType in *.
    cbn [snd] in *. apply String.eqb_eq in Hmarker as ->.
    by apply bool_decide_eq_true.
  - rewrite Htypes, Hfiles. etrans; [apply length_filter|]. lia.
Qed.

(** ** Project types, conventions and the structure overview *)

Lemma existsb_perm {A} (l l' : list A) :
  l ≡ₚ l' → ∀ p, existsb p l = existsb p l'.
Proof.
  induction 1 as [|x l l' _ IH|x y l|l l' l'' _ IH1 _ IH2]; intros p.
  - done.
  - cbn. by rewrite IH.
  - cbn. by destruct (p x), (p y).
  - by rewrite IH1.
Qed.

Lemma indicatorMatches_perm files files' indicator :
  files ≡ₚ files' →
  indicatorMatches files indicator = indicatorMatches files' indicator.
Proof.
  intros Hperm. pose proof (existsb_perm _ _ Hperm) as Hsame.
  unfold indicatorMatches, Js.arrayIncludes.
  repeat case_match; try done; apply Hsame.
Qed.

Lemma sublist_map {A B} (f : A → B) (l k : list A) :
  l `sublist_of` k → map f l `sublist_of` map f k.
Proof.
  induction 1; cbn;
    [constructor | by apply sublist_skip | by apply sublist_cons].
Qed.

(** X6.  [detectProjectTypes] returns either the single name [unknown] or
    a selection of the eight project types in the order of the indicator
    table; it never repeats a name, never mixes [unknown] with a type, and
    does not depend on the order of the file names or on the root path. *)
Theorem X6_project_types_shape :
  ∀ (rootPath : string) (files : list string),
    (detectProjectTypes rootPath files = ["unknown"]
     ∨ (detectProjectTypes rootPath files
          `sublist_of` map fst PROJECT_INDICATORS
        ∧ ¬ In "unknown" (detectProjectTypes rootPath files)))
    ∧ NoDup (detectProjectTypes rootPath files)
    ∧ (1 ≤ length (detectProjectTypes rootPath files) ≤ 8)%nat
    ∧ (∀ rootPath' files',
         files ≡ₚ files' →
         detectProjectTypes rootPath' files'
         = detectProjectTypes rootPath files).
Proof.
  intros rootPath files.
  assert (Hknown : NoDup (map fst PROJECT_INDICATORS)
                   ∧ ¬ In "unknown" (map fst PROJECT_INDICATORS)
                   ∧ length (map fst PROJECT_INDICATORS) = 8%nat).
  { split; [|split; [|done]].
    - apply (bool_decide_unpack _). by vm_compute.
    - cbn. intuition discriminate. }
  destruct Hknown as (Hnodup & Hunknown & Hlen).
  destruct (detectProjectTypes_unfold rootPath files) as [Heq _].
  cbv zeta in Heq.
  assert (Hsub : map fst
            (filter (λ entry,
                       Is_true (existsb (indicatorMatches files) entry.2))
                    PROJECT_INDICATORS)
          `sublist_of` map fst PROJECT_INDICATORS)
    by apply sublist_map, sublist_filter.
  rewrite Heq. split; [|split; [|split]].
  - destruct (map fst (filter _ _)) as [|type types] eqn:Htypes;
      [by left | right]. split; [done|].
    intros Hin. apply Hunknown. apply list_elem_of_In.
    eapply elem_of_sublist; [by apply list_elem_of_In | exact Hsub].
  - destruct (map fst (filter _ _)) as [|type types] eqn:Htypes.
    + apply NoDup_singleton.
    + by eapply sublist_NoDup.
  - apply sublist_length in Hsub. rewrite Hlen in Hsub.
    destruct (map fst (filter _ _)); cbn in *; lia.
  - intros rootPath' files' Hperm.
    destruct (detectProjectTypes_unfold rootPath' files') as [-> _].
    cbv zeta.
    rewrite (list_filter_iff
               (λ entry, Is_true (existsb (indicatorMatches files') entry.2))
               (λ entry, Is_true (existsb (indicatorMatches files) entry.2)));
      [done|].
    intros [type indicators]. cbn [snd].
    assert (existsb (indicatorMatches files') indicators
            = existsb (indicatorMatches files) indicators) as ->; [|done].
    induction indicators as [|indicator indicators IH]; [done|].
    cbn. by rewrite IH, (indicatorMatches_perm files files').
Qed.

(** A Python and Node project, with the file names in two orders. *)
Lemma X6_project_types_shape_witness :
  detectProjectTypes "/a" ["setup.py"; "package.json"; "Pipfile"]
  = ["node"; "python"]
  ∧ detectProjectTypes "/b" ["Pipfile"; "setup.py"; "package.json"]
    = detectProjectTypes "/a" ["setup.py"; "package.json"; "Pipfile"].
Proof.
  split; [reflexivity|].
  apply (proj2 (proj2 (proj2
           (X6_project_types_shape "/a"
              ["setup.py"; "package.json"; "Pipfile"])))).
  symmetry.
  apply (Permutation_cons_append ["setup.py"; "package.json"] "Pipfile").
Defined.

Lemma append_nil_r (a : string) : a ++ "" = a.
Proof.
  induction a as [|c a IH]; [done|].
  change (String c a ++ "") with (String c (a ++ "")). by rewrite IH.
Qed.

Lemma prefix_spec (a s : string) :
  String.prefix a s = true ↔ ∃ post, s = a ++ post.
Proof.
  revert s. induction a as [|c a IH]; intros s.
  - split; [|by destruct s]. intros _. by exists s.
  - destruct s as [|d s]; cbn [String.prefix].
    + split; [done | by intros [post Hpost]].
    + destruct (ascii_dec c d) as [->|Hne].
      * rewrite IH. split; intros [post Hpost]; exists post.
        -- change (String d a ++ post) with (String d (a ++ post)).
           by rewrite Hpost.
        -- change (String d a ++ post) with (String d (a ++ post)) in Hpost.
           by injection Hpost.
      * split; [done|]. intros [post Hpost].
        change (String c a ++ post) with (String c (a ++ post)) in Hpost.
        injection Hpost as ? ?. by destruct Hne.
Qed.

(** The search of an unanchored [.literal]: [literal] occurs somewhere
    after a character that the dot accepts. *)
Lemma anyCharThen_spec literal s :
  ∀ before,
    anyCharThen literal before s = true
    ↔ ∃ pre post,
        s = pre ++ literal ++ post
        ∧ dotMatchesEndOf (before ++ pre) = true.
Proof.
  induction s as [|c s IH]; intros before; cbn [anyCharThen];
    rewrite orb_true_iff.
  - split.
    + intros [Hhere|?]; [|done].
      destruct (String.prefix literal "") eqn:Hprefix; [|done].
      apply prefix_spec in Hprefix as [post Hpost].
      exists "", post. by rewrite append_nil_r.
    + intros (pre & post & Hs & Hdot). left.
      destruct pre; [|done]. rewrite append_nil_r in Hdot.
      change ("" ++ literal ++ post) with (literal ++ post) in Hs.
      assert (String.prefix literal "" = true) as ->
        by (apply prefix_spec; eauto). done.
  - rewrite IH. split.
    + intros [Hhere|(pre & post & -> & Hdot)].
      * destruct (String.prefix literal (String c s)) eqn:Hprefix; [|done].
        apply prefix_spec in Hprefix as [post Hpost].
        exists "", post. by rewrite append_nil_r.
      * exists (String c pre), post. split; [done|].
        by rewrite append_assoc in Hdot.
    + intros ([|d pre] & post & Hs & Hdot).
      * left. rewrite append_nil_r in Hdot.
        change ("" ++ literal ++ post) with (literal ++ post) in Hs.
        assert (String.prefix literal (String c s) = true) as ->
          by (apply prefix_spec; eauto). done.
      * right.
        change (String d pre ++ literal ++ post)
          with (String d (pre ++ literal ++ post)) in Hs.
        injection Hs as -> ->. exists pre, post. split; [done|].
        by rewrite append_assoc.
Qed.

(** X7.  The starred indicators are looser than a file extension:
    [dotnet] is among the detected project types exactly when some
    top-level file name contains [csproj] or [sln] right after a character
    that is not a line terminator, wherever in the name that is. *)
Theorem X7_starred_indicators :
  ∀ (rootPath : string) (files : list string),
    In "dotnet" (detectProjectTypes rootPath files)
    ↔ ∃ file pre post,
        In file files
        ∧ dotMatchesEndOf pre = true
        ∧ (file = pre ++ "csproj" ++ post ∨ file = pre ++ "sln" ++ post).
Proof.
  intros rootPath files.
  destruct (detectProjectTypes_unfold rootPath files) as [Heq Htypes].
  cbv zeta in Heq, Htypes.
  assert (Hin : In "dotnet" (detectProjectTypes rootPath files)
                ↔ indicates files "dotnet").
  { rewrite Heq, <- Htypes. destruct (map fst _); [|done].
    cbn. intuition discriminate. }
  rewrite Hin. unfold indicates. split.
  - intros (indicators & indicator & Htable & Hindicator & Hmatch).
    assert (indicators = ["*.csproj"; "*.sln"]) as ->.
    { cbn in Htable.
      repeat (destruct Htable as [Htable|Htable];
              [by injection Htable || discriminate Htable|]). done. }
    destruct Hindicator as [<-|[<-|[]]];
      apply existsb_exists in Hmatch as (file & Hfile & Hfound);
      apply anyCharThen_spec in Hfound as (pre & post & -> & Hdot).
    + exists (pre ++ "csproj" ++ post), pre, post.
      split; [done|]. split; [exact Hdot | by left].
    + exists (pre ++ "sln" ++ post), pre, post.
      split; [done|]. split; [exact Hdot | by right].
  - intros (file & pre & post & Hfile & Hdot & Hshape).
    exists ["*.csproj"; "*.sln"].
    destruct Hshape as [->| ->]; [exists "*.csproj" | exists "*.sln"];
      (split; [cbn; tauto|]); (split; [cbn; tauto|]);
      apply existsb_exists; eexists; (split; [exact Hfile|]);
      apply anyCharThen_spec; exists pre, post; by split.
Qed.

(** A file that merely mentions [csproj] in its name makes the project a
    .NET project. *)
Lemma X7_starred_indicators_witness :
  In "dotnet" (detectProjectTypes "/proj" ["old-csproj-backup.txt"])
  ∧ detectProjectTypes "/proj" ["csproj"] = ["unknown"].
Proof.
  split; [|reflexivity].
  apply (proj2 (X7_starred_indicators "/proj" ["old-csproj-backup.txt"])).
  exists "old-csproj-backup.txt", "old-", "-backup.txt".
  split; [by left|]. split; [reflexivity | by left].
Defined.

(** ** C8: project types against the glob reading of the indicators *)

Lemma filter_bool_ext {A} (p q : A → bool) (l : list A) :
  Forall (λ x, p x = q x) l →
  filter (λ x, Is_true (p x)) l = filter (λ x, Is_true (q x)) l.
Proof.
  induction 1 as [|x l Hx _ IH]; [done|].
  rewrite !filter_cons, Hx, IH. destruct (q x); by repeat case_decide.
Qed.

Lemma In_map_filter {A B} (f : A → B) (p : A → bool) (l : list A) y :
  In y (map f (filter (λ x, Is_true (p x)) l)) → In y (map f l).
Proof.
  intros (x & <- & [_ Hx]%list_elem_of_In%list_elem_of_filter)%in_map_iff.
  by apply in_map, list_elem_of_In.
Qed.

Lemma endsWith_spec s p :
  Js.endsWith s p = true ↔ ∃ pre, s = pre ++ p.
Proof.
  split; [|intros [pre ->]; apply endsWith_append].
  induction s as [|c s IH]; cbn [Js.endsWith];
    rewrite orb_true_iff, String.eqb_eq.
  - intros [<-|?]; [by exists "" | done].
  - intros [<-|[pre ->]%IH]; [by exists ""|]. by exists (String c pre).
Qed.

Lemma append_last_inj (a b : string) (c d : ascii) :
  a ++ String c "" = b ++ String d "" → a = b ∧ c = d.
Proof.
  revert b. induction a as [|x a IH]; intros [|y b] Heq.
  - by injection Heq.
  - injection Heq as _ Heq. by destruct b.
  - injection Heq as _ Heq. by destruct a.
  - change (String x (a ++ String c "") = String y (b ++ String d ""))
      in Heq.
    injection Heq as -> Heq. by destruct (IH b Heq) as [-> ->].
Qed.

(** The regular expression's dot accepts the dot itself. *)
Lemma dotMatchesEndOf_dot pre : dotMatchesEndOf (pre ++ ".") = true.
Proof.
  assert (∀ mid c, c ≠ "."%char →
            Js.endsWith (pre ++ ".") (mid ++ String c "") = false)
    as Hlast.
  { intros mid c Hc.
    destruct (Js.endsWith _ _) eqn:Hends; [|done].
    apply endsWith_spec in Hends as [pre' Hends].
    rewrite <- append_assoc in Hends.
    apply append_last_inj in Hends as [_ Heq]. by destruct Hc. }
  pose proof (Hlast "" (ascii_of_nat 10) ltac:(done)) as Hlf.
  pose proof (Hlast "" (ascii_of_nat 13) ltac:(done)) as Hcr.
  pose proof (Hlast (String (ascii_of_nat 226) (String (ascii_of_nat 128) ""))
                    (ascii_of_nat 168) ltac:(done)) as Hls.
  pose proof (Hlast (String (ascii_of_nat 226) (String (ascii_of_nat 128) ""))
                    (ascii_of_nat 169) ltac:(done)) as Hps.
  unfold dotMatchesEndOf.
  change (Js.endsWith (pre ++ ".") (String (ascii_of_nat 10) "") = false)
    in Hlf. rewrite Hlf.
  change (Js.endsWith (pre ++ ".") (String (ascii_of_nat 13) "") = false)
    in Hcr. rewrite Hcr.
  change (Js.endsWith (pre ++ ".")
            (String (ascii_of_nat 226) (String (ascii_of_nat 128)
               (String (ascii_of_nat 168) ""))) = false) in Hls. rewrite Hls.
  change (Js.endsWith (pre ++ ".")
            (String (ascii_of_nat 226) (String (ascii_of_nat 128)
               (String (ascii_of_nat 169) ""))) = false) in Hps. rewrite Hps.
  by destruct pre.
Qed.

(** A name that ends with a dot and the letters is found by the search of
    the starred indicator. *)
Lemma anyCharThen_extension literal file :
  Js.endsWith file ("." ++ literal) = true →
  anyCharThen literal "" file = true.
Proof.
  intros [pre ->]%endsWith_spec. apply anyCharThen_spec.
  exists (pre ++ "."), "". split.
  - by rewrite append_nil_r, append_assoc.
  - apply dotMatchesEndOf_dot.
Qed.

Lemma existsb_impl {A} (p q : A → bool) (l : list A) :
  (∀ x, p x = true → q x = true) → existsb p l = true → existsb q l = true.
Proof.
  intros Hpq (x & Hx & Hp)%existsb_exists. apply existsb_exists. eauto.
Qed.

(** Two selections from a table that agree everywhere but at one entry
    differ at most in that entry's name. *)
Lemma types_split {A} (p q : string * A → bool)
    (head : list (string * A)) (x : string * A) (tail : list (string * A)) :
  Forall (λ e, p e = q e) head → Forall (λ e, p e = q e) tail →
  ∃ before after : list string,
    map fst (filter (λ e, Is_true (p e)) (head ++ [x] ++ tail)%list)
    = (before ++ (if p x then [x.1] else []) ++ after)%list
    ∧ map fst (filter (λ e, Is_true (q e)) (head ++ [x] ++ tail)%list)
      = (before ++ (if q x then [x.1] else []) ++ after)%list
    ∧ (∀ y, In y before → In y (map fst head))
    ∧ (∀ y, In y after → In y (map fst tail)).
Proof.
  intros Hhead%filter_bool_ext Htail%filter_bool_ext.
  exists (map fst (filter (λ e, Is_true (q e)) head)),
         (map fst (filter (λ e, Is_true (q e)) tail)).
  rewrite !filter_app, !filter_bool_singleton, Hhead, Htail, !map_app.
  split; [by destruct (p x)|]. split; [by destruct (q x)|].
  split; intros y; apply In_map_filter.
Qed.

(** The list computed by the code and the list of the types whose
    indicator file is present differ at most in [dotnet]. *)
Lemma projectTypes_compare files :
  ∃ (before after : list string) (found present : bool),
    map fst
      (filter (λ entry, Is_true (existsb (indicatorMatches files) entry.2))
              PROJECT_INDICATORS)
    = (before ++ (if found then ["dotnet"] else []) ++ after)%list
    ∧ presentTypes files
      = (before ++ (if present then ["dotnet"] else []) ++ after)%list
    ∧ (present = true → found = true)
    ∧ ¬ In "dotnet" before ∧ ¬ In "dotnet" after.
Proof.
  destruct (types_split
              (λ entry, existsb (indicatorMatches files) entry.2)
              (λ entry,
                 existsb (λ indicator, existsb (globMatches indicator) files)
                         entry.2)
              (firstn 5 PROJECT_INDICATORS)
              ("dotnet", ["*.csproj"; "*.sln"])
              (skipn 6 PROJECT_INDICATORS))
    as (before & after & Hcode & Hglob & Hbefore & Hafter).
  { repeat constructor. }
  { repeat constructor. }
  exists before, after,
    (existsb (indicatorMatches files) ["*.csproj"; "*.sln"]),
    (existsb (λ indicator, existsb (globMatches indicator) files)
             ["*.csproj"; "*.sln"]).
  split; [exact Hcode|]. split; [exact Hglob|]. split; [|split].
  - cbn [existsb]. rewrite !orb_false_r, !orb_true_iff.
    intros [Hcsproj|Hsln]; [left | right];
      (eapply existsb_impl; [|eassumption]);
      intros file Hfile; by apply anyCharThen_extension.
  - intros Hin%Hbefore. cbn in Hin. intuition discriminate.
  - intros Hin%Hafter. cbn in Hin. intuition discriminate.
Qed.

(** C8.  The code reports a project type that no indicator file stands
    for: with [xsln] and [old-csproj-backup.txt] as the only candidates no
    indicator file is present, so the list described is [unknown] alone,
    yet [detectProjectTypes] and [analyzeProject] answer [dotnet].  The
    starred indicators, marked as glob patterns in the code, are searched
    as unanchored regular expressions whose dot stands for any character.
    Everything else holds: the list is never empty, every type whose
    indicator file is present is reported, and the list is the one
    described unless [dotnet] is reported without a [.csproj] or [.sln]
    file; [analyzeProject] reports the list computed from the names of the
    plain files of the root. *)
Theorem C8_spurious_dotnet :
  (expectedProjectTypes ["xsln"] = ["unknown"]
   ∧ detectProjectTypes "/proj" ["xsln"] = ["dotnet"])
  ∧ (expectedProjectTypes ["old-csproj-backup.txt"] = ["unknown"]
     ∧ detectProjectTypes "/proj" ["old-csproj-backup.txt"] = ["dotnet"])
  ∧ (∃ r,
       analyzeProject sampleAmbient "/proj" (Some lookalikeTree) = Returned r
       ∧ projectTypes r = ["dotnet"]
       ∧ expectedProjectTypes
           ["README.md"; "xsln"; "old-csproj-backup.txt"] = ["unknown"])
  ∧ (∀ rootPath files,
       detectProjectTypes rootPath files ≠ []
       ∧ (∀ type, In type (presentTypes files) →
                  In type (detectProjectTypes rootPath files))
       ∧ (detectProjectTypes rootPath files = expectedProjectTypes files
          ∨ (In "dotnet" (detectProjectTypes rootPath files)
             ∧ ¬ In "dotnet" (presentTypes files))))
  ∧ (∀ amb rootPath name entries,
       ∃ r,
         analyzeProject amb rootPath (Some (DirEnt name (Some entries)))
         = Returned r
         ∧ projectTypes r = detectProjectTypes rootPath (fileNames entries)).
Proof.
  split; [by split|]. split; [by split|]. split; [|split].
  - destruct (analyzeProject_readable sampleAmbient "/proj" "proj"
                [FileEnt "README.md"; FileEnt "xsln";
                 FileEnt "old-csproj-backup.txt"])
      as (r & Hr & _ & Htypes & _).
    exists r. split; [exact Hr|]. split; [|reflexivity].
    rewrite Htypes. reflexivity.
  - intros rootPath files.
    destruct (detectProjectTypes_unfold rootPath files) as [Hcode _].
    cbv zeta in Hcode.
    destruct (projectTypes_compare files)
      as (before & after & found & present & Hfound & Hpresent & Himpl
          & Hbefore & Hafter).
    rewrite Hcode, Hfound. unfold expectedProjectTypes. rewrite Hpresent.
    destruct present, found; try (by specialize (Himpl eq_refl)).
    + split; [by destruct before|]. split; [|left; by destruct before].
      intros type Htype. by destruct before.
    + split; [by destruct before|]. split.
      * intros type Htype.
        assert (In type (before ++ ["dotnet"] ++ after)%list) as Hin.
        { apply in_app_iff in Htype as [?|Htype]; apply in_app_iff;
            [by left | right]. by right. }
        by destruct before.
      * right. split.
        -- assert (In "dotnet" (before ++ ["dotnet"] ++ after)%list) as Hin
             by (apply in_app_iff; right; by left).
           by destruct before.
        -- intros [?|?]%in_app_iff; done.
    + destruct (before ++ [] ++ after)%list;
        (split; [done|]); (split; [done | by left]).
  - intros amb rootPath name entries.
    destruct (analyzeProject_readable amb rootPath name entries)
      as (r & Hr & _ & Htypes & _).
    exists r. by split.
Qed.

Lemma In_when (b : bool) (c x : string) :
  In x (if b then [c] else []) ↔ b = true ∧ c = x.
Proof. destruct b; cbn; intuition discriminate. Qed.

(** X8.  [detectConventions] reports a selection of its ten labels, each
    at most once and always in the same order, whatever the order of the
    file names; the label for [AGENTS.md] is reported exactly when a
    top-level file has that name, and the one for GitHub Actions exactly
    when the workflows directory exists. *)
Theorem X8_conventions :
  ∀ (hasWorkflows : bool) (files : list string),
    detectConventions hasWorkflows files `sublist_of` CONVENTION_LABELS
    ∧ NoDup (detectConventions hasWorkflows files)
    ∧ (In "AGENTS.md for AI guidance" (detectConventions hasWorkflows files)
       ↔ In "AGENTS.md" files)
    ∧ (In "GitHub Actions for CI/CD" (detectConventions hasWorkflows files)
       ↔ hasWorkflows = true)
    ∧ (∀ files',
         files ≡ₚ files' →
         detectConventions hasWorkflows files'
         = detectConventions hasWorkflows files).
Proof.
  intros hasWorkflows files.
  assert (Hsub : detectConventions hasWorkflows files
                 `sublist_of` CONVENTION_LABELS).
  { unfold detectConventions, CONVENTION_LABELS. cbv beta zeta.
    repeat match goal with
    | |- ((if ?b then [?c] else []) ++ _)%list `sublist_of` (?c :: ?labels) =>
        apply (sublist_app _ [c] _ labels);
        [destruct b; [done | apply sublist_nil_l]|]
    end.
    match goal with
    | |- (if ?b then _ else _) `sublist_of` _ =>
        destruct b; [done | apply sublist_nil_l]
    end. }
  split; [exact Hsub|]. split; [|split; [|split]].
  - eapply sublist_NoDup; [|exact Hsub].
    apply (bool_decide_unpack _). by vm_compute.
  - rewrite <- (arrayIncludes_In files "AGENTS.md").
    unfold detectConventions. cbv beta zeta.
    rewrite !in_app_iff, !In_when. split.
    + intros Hin. repeat destruct Hin as [Hin|Hin];
        destruct Hin as [Hb Heq]; try discriminate Heq. exact Hb.
    + intros Hb. do 9 right. by split.
  - unfold detectConventions. cbv beta zeta.
    rewrite !in_app_iff, !In_when. split.
    + intros Hin. repeat destruct Hin as [Hin|Hin];
        destruct Hin as [Hb Heq]; try discriminate Heq. exact Hb.
    + intros Hb. do 6 right. left. by split.
  - intros files' Hperm. pose proof (existsb_perm _ _ Hperm) as Hsame.
    unfold detectConventions, Js.arrayIncludes. cbv beta zeta.
    by rewrite !Hsame.
Qed.

(** The names of a TypeScript project with Docker, in two orders. *)
Lemma X8_conventions_witness :
  detectConventions true ["Dockerfile"; "tsconfig.json"; "AGENTS.md"]
  = ["TypeScript enabled"; "GitHub Actions for CI/CD";
     "Docker containerization"; "AGENTS.md for AI guidance"]
  ∧ detectConventions true ["AGENTS.md"; "Dockerfile"; "tsconfig.json"]
    = detectConventions true ["Dockerfile"; "tsconfig.json"; "AGENTS.md"].
Proof.
  split; [reflexivity|].
  apply (proj2 (proj2 (proj2 (proj2
           (X8_conventions true ["Dockerfile"; "tsconfig.json"; "AGENTS.md"]))))).
  symmetry.
  apply (Permutation_cons_append ["Dockerfile"; "tsconfig.json"] "AGENTS.md").
Defined.

(** X9.  The structure overview lists at most ten directories, then at
    most ten files, then one line counting what is left when there are
    more than twenty entries: at most 21 lines.  That line announces the
    number of entries beyond twenty, which is never more than the number
    of entries left out.  With at most ten directories and at most ten
    files every entry is listed and there is no such line. *)
Theorem X9_structure_overview :
  ∀ (topLevelDirs topLevelFiles : list string),
    let total := (length topLevelDirs + length topLevelFiles)%nat in
    let listed :=
      (length topLevelDirs `min` 10 + length topLevelFiles `min` 10)%nat in
    length (buildStructure topLevelDirs topLevelFiles)
    = (listed + (if (20 <? total)%nat then 1 else 0))%nat
    ∧ (length (buildStructure topLevelDirs topLevelFiles) ≤ 21)%nat
    ∧ ((20 < total)%nat →
       last (buildStructure topLevelDirs topLevelFiles)
       = Some ("... and " ++ pretty (total - 20)%nat ++ " more")
       ∧ (total - 20 ≤ total - listed)%nat)
    ∧ ((length topLevelDirs ≤ 10)%nat → (length topLevelFiles ≤ 10)%nat →
       buildStructure topLevelDirs topLevelFiles
       = (map (λ dir, String.append dir "/") topLevelDirs
          ++ topLevelFiles)%list).
Proof.
  intros topLevelDirs topLevelFiles total listed.
  unfold buildStructure. fold total.
  rewrite !length_app, length_map, !length_take.
  split; [|split; [|split]].
  - subst listed. destruct (20 <? total)%nat; cbn [length]; lia.
  - destruct (20 <? total)%nat; cbn [length]; lia.
  - intros Hmore. apply Nat.ltb_lt in Hmore as Hb. rewrite Hb.
    split; [|subst listed; lia].
    rewrite app_assoc. apply last_snoc.
  - intros Hdirs Hfiles.
    assert ((20 <? total)%nat = false) as ->
      by (apply Nat.ltb_ge; subst total; lia).
    by rewrite !take_ge, app_nil_r by lia.
Qed.

(** Twenty-five directories and no file: ten are listed, five more are
    announced, fifteen are left out. *)
Lemma X9_structure_overview_witness :
  last (buildStructure (replicate 25 "pkg") [])
  = Some "... and 5 more"
  ∧ length (buildStructure (replicate 25 "pkg") []) = 11%nat.
Proof.
  destruct (X9_structure_overview (replicate 25 "pkg") [])
    as (Hlen & _ & Hlast & _).
  split.
  - apply Hlast. cbn. lia.
  - rewrite Hlen. reflexivity.
Defined.

(** ** The arguments of the command *)

Lemma last_filter_cons {A} (p : A → bool) (x : A) (l : list A) :
  last (filter (λ y, Is_true (p y)) (x :: l))
  = match last (filter (λ y, Is_true (p y)) l) with
    | Some y => Some y
    | None => if p x then Some x else None
    end.
Proof.
  rewrite filter_cons.
  destruct (p x); case_decide; try done; [|by destruct (last _)].
  rewrite last_cons. by destruct (last _).
Qed.

Lemma arrayIncludes_cons (x a : string) (xs : list string) :
  Js.arrayIncludes (a :: xs) x = String.eqb x a || Js.arrayIncludes xs x.
Proof. reflexivity. Qed.

Lemma parseLoop_through resolve args :
  ∀ result,
    Forall (λ arg, endsParse arg = false) args →
    parseLoop resolve args result
    = Parsed
        (mkLearnArgs
           (match last (filter (λ arg, Is_true (isPositional arg)) args) with
            | Some arg => resolve arg
            | None => path result
            end)
           (json result || Js.arrayIncludes args "--json")
           (verbose result || Js.arrayIncludes args "--verbose"
            || Js.arrayIncludes args "-v")).
Proof.
  induction args as [|arg rest IH]; intros result Hargs.
  - cbn. rewrite !orb_false_r. destruct result. reflexivity.
  - apply Forall_cons_1 in Hargs as [Harg Hrest].
    rewrite last_filter_cons, !arrayIncludes_cons. cbn [parseLoop].
    unfold endsParse, isHelp, isSwitch in Harg.
    rewrite !(String.eqb_sym _ arg).
    destruct (String.eqb arg "--help"), (String.eqb arg "-h");
      try discriminate Harg; cbn [orb] in *.
    destruct (String.eqb_spec arg "--json") as [->|Hjson].
    { rewrite IH by done. cbn [path json verbose]. f_equal. f_equal;
        try (by destruct (last _));
        by destruct (json result), (verbose result),
                    (Js.arrayIncludes rest "--verbose"). }
    destruct (String.eqb_spec arg "--verbose") as [->|Hverbose].
    { rewrite IH by done. cbn [path json verbose]. f_equal. f_equal;
        try (by destruct (last _));
        by destruct (json result), (verbose result),
                    (Js.arrayIncludes rest "--verbose"). }
    destruct (String.eqb_spec arg "-v") as [->|Hv].
    { rewrite IH by done. cbn [path json verbose]. f_equal. f_equal;
        try (by destruct (last _));
        by destruct (json result), (verbose result),
                    (Js.arrayIncludes rest "--verbose"). }
    cbn [orb] in *. unfold isPositional in *.
    destruct (Js.startsWith arg "-"); [discriminate Harg|].
    cbn [negb]. rewrite IH by done. cbn [path json verbose].
    by destruct (last _).
Qed.

(** X10.  When no argument asks for help or is an unknown option,
    [parseLearnArgs] returns: [json] is set exactly when [--json] occurs,
    [verbose] exactly when [--verbose] or [-v] occurs, and the path is the
    last argument that does not start with a dash, resolved, or the working
    directory when there is none.  Otherwise the first request for help or
    unknown option decides alone: help exits with code 0, an unknown option
    with code 1 after naming it, whatever comes later. *)
Theorem X10_parse_arguments :
  ∀ (cwd : string) (resolve : string → string),
    (∀ args,
       Forall (λ arg, endsParse arg = false) args →
       parseLearnArgs cwd resolve args
       = Parsed
           (mkLearnArgs
              (match last (filter (λ arg, Is_true (isPositional arg)) args)
               with
               | Some arg => resolve arg
               | None => cwd
               end)
              (Js.arrayIncludes args "--json")
              (Js.arrayIncludes args "--verbose"
               || Js.arrayIncludes args "-v")))
    ∧ (∀ before arg after,
         Forall (λ arg, endsParse arg = false) before →
         endsParse arg = true →
         parseLearnArgs cwd resolve (before ++ arg :: after)
         = if isHelp arg then Exit 0 [HelpText]
           else Exit 1 [UnknownOption arg; HelpText]).
Proof.
  intros cwd resolve. split.
  - intros args Hargs. unfold parseLearnArgs.
    by rewrite parseLoop_through.
  - intros before arg after Hbefore Harg. unfold parseLearnArgs.
    generalize (mkLearnArgs cwd false false).
    induction before as [|first before IH]; intros result.
    + cbn [app parseLoop]. unfold endsParse, isHelp, isSwitch, isPositional in *.
      destruct (String.eqb arg "--help" || String.eqb arg "-h"); [done|].
      cbn [orb] in Harg. apply negb_true_iff, orb_false_iff in Harg
        as [Hswitch Hpositional].
      apply orb_false_iff in Hswitch as [Hswitch Hv].
      apply orb_false_iff in Hswitch as [Hjson Hverbose].
      by rewrite Hjson, Hverbose, Hv, Hpositional.
    + apply Forall_cons_1 in Hbefore as [Hfirst Hbefore].
      cbn [app parseLoop].
      unfold endsParse, isHelp, isSwitch, isPositional in Hfirst.
      apply orb_false_iff in Hfirst as [-> Hfirst]. cbn [orb].
      destruct (String.eqb first "--json"); [by apply IH|].
      destruct (String.eqb first "--verbose"); [by apply IH|].
      destruct (String.eqb first "-v"); [by apply IH|].
      cbn [orb] in *. rewrite negb_false_iff in Hfirst.
      rewrite Hfirst. by apply IH.
Qed.

(** Two paths and both switches; an unknown option before a request for
    help; an empty argument taken as a path. *)
Lemma X10_parse_arguments_witness :
  parseLearnArgs "/home" (String.append "/home/")
    ["a"; "--json"; "b"; "-v"]
  = Parsed (mkLearnArgs "/home/b" true true)
  ∧ parseLearnArgs "/home" (String.append "/home/") ["src"; "--fast"; "--help"]
    = Exit 1 [UnknownOption "--fast"; HelpText]
  ∧ parseLearnArgs "/home" (String.append "/home/") [""]
    = Parsed (mkLearnArgs "/home/" false false).
Proof.
  destruct (X10_parse_arguments "/home" (String.append "/home/"))
    as [Hthrough Hends].
  split; [|split].
  - apply (Hthrough ["a"; "--json"; "b"; "-v"]). by repeat constructor.
  - apply (Hends ["src"] "--fast" ["--help"]); [by repeat constructor | done].
  - apply (Hthrough [""]). by repeat constructor.
Defined.

(** ** What [loadContextFiles] collects *)

Lemma loaded_shape host cwd filePath :
  let r := loaded host cwd filePath in
  (File.success r = false ∧ contributes r = false
   ∧ ∃ message, File.error r = Some message ∧ reported r = [message])
  ∨ (File.success r = true ∧ File.error r = None ∧ reported r = []
     ∧ ∃ size, File.sizeBytes r = Some size
               ∧ (size ≤ MAX_CONTEXT_FILE_SIZE)%Z).
Proof.
  intros r. subst r. unfold loaded.
  destruct (loadContextFile_cases host filePath cwd)
    as [(message & -> & Hmessage & _)
       |(size & content & -> & (_ & _ & _ & Hsize & _))].
  - left. split; [done|]. split; [done|]. exists message. split; [done|].
    unfold reported, contributes, failed. cbn.
    by destruct (String.eqb_spec message "").
  - right. split; [done|]. split; [done|]. split.
    + unfold reported, contributes. cbn. by destruct (negb _).
    + by exists size.
Qed.

Lemma record_fields r st :
  errors (record r st) = (errors st ++ reported r)%list
  ∧ contents (record r st)
    = (contents st
       ++ if contributes r then [default "" (File.content r)] else [])%list
  ∧ totalSize (record r st)
    = (totalSize st
       + if contributes r then default 0 (File.sizeBytes r) else 0)%Z.
Proof.
  unfold record, reported, contributes.
  destruct (File.success r && Js.truthy (File.content r));
    [|destruct (Js.truthy (File.error r))];
    cbn; rewrite ?app_nil_r, ?Z.add_0_r; done.
Qed.

(** The loop stops at the first reading of the clock beyond the limit and
    has by then recorded the files before it. *)
Lemma loadLoop_trace host cwd startTime filePaths :
  ∀ st,
    ∃ (k : nat) st',
      (k ≤ length filePaths)%nat
      ∧ (∀ j, (j < k)%nat →
              (now host (ticks st + j) - startTime ≤ MAX_LOAD_TIME_MS)%Z)
      ∧ ((k < length filePaths)%nat →
         (now host (ticks st + k) - startTime > MAX_LOAD_TIME_MS)%Z)
      ∧ loadLoop host cwd startTime filePaths st = Returned st'
      ∧ let rs := map (loaded host cwd) (take k filePaths) in
        results st' = (results st ++ rs)%list
        ∧ errors st'
          = (errors st ++ concat (map reported rs)
             ++ if (k <? length filePaths)%nat then [timeoutMessage]
                else [])%list
        ∧ contents st'
          = (contents st
             ++ map (λ r, default "" (File.content r))
                  (filter (λ r, Is_true (contributes r)) rs))%list
        ∧ totalSize st'
          = (totalSize st + contributedSize rs)%Z
        ∧ ticks st'
          = (ticks st + k + if (k <? length filePaths)%nat then 1 else 0)%nat.
Proof.
  induction filePaths as [|filePath rest IH]; intros st.
  - exists 0%nat, st. cbn. rewrite !app_nil_r.
    repeat split; try done; try lia; unfold contributedSize; cbn; lia.
  - cbn [loadLoop].
    destruct (Z.gtb_spec (now host (ticks st) - startTime) MAX_LOAD_TIME_MS)
      as [Hlate|Hintime].
    + eexists 0%nat, _. split; [cbn; lia|]. split; [intros; lia|].
      split; [intros _; rewrite Nat.add_0_r; lia|]. split; [done|].
      cbn. rewrite !app_nil_r.
      repeat split; try done; try lia; unfold contributedSize; cbn; lia.
    + rewrite loadContextFile_loaded.
      destruct (IH (record (loaded host cwd filePath)
                      (mkLoop (results st) (errors st) (contents st)
                              (totalSize st) (S (ticks st)))))
        as (k & st' & Hk & Hbefore & Hat & Hloop & Hresults & Herrors
            & Hcontents & Hsize & Hticks).
      rewrite record_ticks in Hbefore, Hat, Hticks.
      rewrite record_results in Hresults.
      destruct (record_fields (loaded host cwd filePath)
                  (mkLoop (results st) (errors st) (contents st)
                          (totalSize st) (S (ticks st))))
        as (Herr1 & Hcon1 & Hsize1).
      rewrite Herr1 in Herrors. rewrite Hcon1 in Hcontents.
      rewrite Hsize1 in Hsize. cbn [results errors contents totalSize ticks] in *.
      exists (S k), st'. split; [cbn; lia|]. split.
      { intros [|j] Hj; [by rewrite Nat.add_0_r|].
        replace (ticks st + S j)%nat with (S (ticks st) + j)%nat by lia.
        apply Hbefore. lia. }
      split.
      { intros Hlt. replace (ticks st + S k)%nat with (S (ticks st) + k)%nat
          by lia. apply Hat. cbn in Hlt. lia. }
      split; [done|]. cbn [take map concat length].
      change (S k <? S (length rest))%nat with (k <? length rest)%nat.
      split; [by rewrite Hresults, <- app_assoc|].
      split; [by rewrite Herrors, <- !app_assoc|].
      split.
      { rewrite Hcontents, <- app_assoc. f_equal.
        rewrite filter_cons. destruct (contributes _); by case_decide. }
      split; [|lia].
      rewrite Hsize.
      change (loaded host cwd filePath
              :: map (loaded host cwd) (take k rest))
        with ([loaded host cwd filePath]
              ++ map (loaded host cwd) (take k rest))%list.
      unfold contributedSize at 2. rewrite filter_app, filter_bool_singleton.
      fold (contributedSize (map (loaded host cwd) (take k rest))).
      destruct (contributes (loaded host cwd filePath)); cbn [app foldr];
        unfold contributedSize; lia.
Qed.

Lemma omap_cons {A B} (f : A → option B) (x : A) (l : list A) :
  omap f (x :: l)
  = match f x with Some y => y :: omap f l | None => omap f l end.
Proof. reflexivity. Qed.

Lemma reported_loaded host cwd filePaths :
  let rs := map (loaded host cwd) filePaths in
  concat (map reported rs) = omap File.error rs
  ∧ (forallb File.success rs = true ↔ omap File.error rs = [])
  ∧ Forall (λ r, contributes r = true →
                 (default 0 (File.sizeBytes r) ≤ MAX_CONTEXT_FILE_SIZE)%Z) rs.
Proof.
  induction filePaths as [|filePath rest (IHe & IHs & IHb)]; [done|].
  cbn [map concat forallb]. rewrite omap_cons.
  destruct (loaded_shape host cwd filePath)
    as [(Hs & Hc & message & He & Hr)|(Hs & He & Hr & size & Hsize & Hle)];
    rewrite Hs, He, Hr; cbn [andb app].
  - split; [by rewrite IHe|]. split; [done|].
    constructor; [by rewrite Hc | done].
  - split; [by rewrite IHe|]. split; [done|].
    constructor; [by rewrite Hsize | done].
Qed.

(** X11.  The errors of [loadContextFiles] are the error messages of the
    per-file results that failed, in the order of the files, followed by
    the time-limit message when the loop stopped before the last path.
    [success] is [true] exactly when at least one file was processed and
    no per-file error was recorded. *)
Theorem X11_errors_of_load :
  ∀ (host : Host) (filePaths : list string) (cwd : string),
    ∃ R (k : nat),
      loadContextFiles host filePaths cwd = Returned R
      ∧ (k ≤ length filePaths)%nat
      ∧ Load.files R = map (loaded host cwd) (take k filePaths)
      ∧ Load.errors R
        = (omap File.error (Load.files R)
           ++ if (k <? length filePaths)%nat then [timeoutMessage]
              else [])%list
      ∧ (Load.success R = true
         ↔ Load.files R ≠ [] ∧ omap File.error (Load.files R) = []).
Proof.
  intros host filePaths cwd. unfold loadContextFiles.
  destruct (loadLoop_trace host cwd (now host 0) filePaths
              (mkLoop [] [] [] 0 1))
    as (k & st & Hk & _ & _ & -> & Hresults & Herrors & _).
  cbn [results errors app] in Hresults, Herrors.
  destruct (reported_loaded host cwd (take k filePaths)) as (He & Hs & _).
  cbv zeta in He, Hs.
  eexists _, k. split; [reflexivity|].
  cbn [Load.files Load.success Load.errors]. rewrite Hresults, Herrors, He.
  split; [done|]. split; [done|]. split; [done|].
  rewrite andb_true_iff, Nat.ltb_lt, Hs.
  split; intros [Hlen Hnone]; (split; [|done]);
    destruct (map (loaded host cwd) (take k filePaths)); cbn in *;
    done || lia.
Qed.

Lemma contributedSize_bound rs :
  Forall (λ r, contributes r = true →
               (default 0 (File.sizeBytes r) ≤ MAX_CONTEXT_FILE_SIZE)%Z) rs →
  (contributedSize rs
   ≤ MAX_CONTEXT_FILE_SIZE
     * Z.of_nat (length (filter (λ r, Is_true (contributes r)) rs)))%Z.
Proof.
  unfold contributedSize. induction 1 as [|r rs Hr _ IH]; [done|].
  rewrite filter_cons. destruct (contributes r) eqn:Hc; case_decide;
    try done. cbn [foldr length]. specialize (Hr eq_refl). lia.
Qed.

Lemma combinedContent_joined host filePaths cwd :
  ∃ R,
    loadContextFiles host filePaths cwd = Returned R
    ∧ Load.combinedContent R
      = join (String "010" (String "010" "---"
              ++ String "010" (String "010" "")))
             (map (λ r, default "" (File.content r))
                (filter (λ r, Is_true (contributes r)) (Load.files R))).
Proof.
  unfold loadContextFiles.
  destruct (loadLoop_trace host cwd (now host 0) filePaths
              (mkLoop [] [] [] 0 1))
    as (k & st & _ & _ & _ & -> & Hresults & _ & Hcontents & _).
  cbn [results contents app] in Hresults, Hcontents.
  eexists. split; [reflexivity|].
  cbn [Load.files Load.combinedContent]. by rewrite Hresults, Hcontents.
Qed.

(** X12.  The combined content is the texts of the contributing files (the
    ones that loaded with a non-empty text), in order, joined by the
    separator [---] between blank lines; a failed file and a file that
    loaded empty leave no trace in it.  [totalSizeBytes] is the sum of the
    sizes of the contributing files, hence at most 100 KiB times their
    number and at most 100 KiB times the number of paths. *)
Theorem X12_combined_content :
  ∀ (host : Host) (filePaths : list string) (cwd : string),
    ∃ R,
      loadContextFiles host filePaths cwd = Returned R
      ∧ let used :=
          filter (λ r, Is_true (contributes r)) (Load.files R) in
        Load.combinedContent R
        = join (String "010" (String "010" "---"
                ++ String "010" (String "010" "")))
               (map (λ r, default "" (File.content r)) used)
        ∧ Load.totalSizeBytes R = contributedSize (Load.files R)
        ∧ (Load.totalSizeBytes R ≤ 102400 * Z.of_nat (length used))%Z
        ∧ (length used ≤ length filePaths)%nat.
Proof.
  intros host filePaths cwd. unfold loadContextFiles.
  destruct (loadLoop_trace host cwd (now host 0) filePaths
              (mkLoop [] [] [] 0 1))
    as (k & st & Hk & _ & _ & -> & Hresults & _ & Hcontents & Hsize & _).
  cbn [results contents totalSize app] in Hresults, Hcontents, Hsize.
  destruct (reported_loaded host cwd (take k filePaths)) as (_ & _ & Hbound).
  cbv zeta in Hbound.
  eexists. split; [reflexivity|].
  cbn [Load.files Load.combinedContent Load.totalSizeBytes].
  rewrite Hresults, Hcontents, Hsize, Z.add_0_l.
  split; [done|]. split; [done|]. split.
  - apply (contributedSize_bound _ Hbound).
  - etrans; [apply length_filter|]. rewrite length_map, length_take. lia.
Qed.

(** X13.  When the clock is within the limit at the first [k] time checks
    and beyond it at the next, with paths still left, exactly the first
    [k] files are processed, the time-limit message is the last error, and
    the time reported is the reading taken after the loop.  [success] is
    then [true] exactly when [k] is at least 1 and those [k] files all
    loaded: a load cut short by the time limit can still report
    success. *)
Theorem X13_time_limit :
  ∀ (host : Host) (filePaths : list string) (cwd : string) (k : nat),
    (k < length filePaths)%nat →
    (∀ j, (1 ≤ j ≤ k)%nat →
          (now host j - now host 0 ≤ MAX_LOAD_TIME_MS)%Z) →
    (now host (S k) - now host 0 > MAX_LOAD_TIME_MS)%Z →
    ∃ R,
      loadContextFiles host filePaths cwd = Returned R
      ∧ Load.files R = map (loaded host cwd) (take k filePaths)
      ∧ last (Load.errors R) = Some timeoutMessage
      ∧ Load.loadTimeMs R = (now host (k + 2) - now host 0)%Z
      ∧ (Load.success R = true
         ↔ (1 ≤ k)%nat
           ∧ Forall (λ p, File.success (loaded host cwd p) = true)
                    (take k filePaths)).
Proof.
  intros host filePaths cwd k Hk Hbefore Hat. unfold loadContextFiles.
  destruct (loadLoop_trace host cwd (now host 0) filePaths
              (mkLoop [] [] [] 0 1))
    as (k' & st & Hk' & Hbefore' & Hat' & -> & Hresults & Herrors & _ & _
        & Hticks).
  cbn [results errors ticks app] in *.
  assert (k' = k) as ->.
  { destruct (Nat.lt_trichotomy k' k) as [Hlt|[-> |Hgt]]; [|done|].
    - specialize (Hat' ltac:(lia)). specialize (Hbefore (1 + k')%nat).
      lia.
    - specialize (Hbefore' k Hgt). change (1 + k)%nat with (S k) in Hbefore'.
      lia. }
  apply Nat.ltb_lt in Hk as Hb. rewrite Hb in Herrors, Hticks.
  eexists. split; [reflexivity|].
  cbn [Load.files Load.success Load.errors Load.loadTimeMs].
  split; [done|]. split; [|split].
  - rewrite Herrors. apply last_snoc.
  - rewrite Hticks. do 2 f_equal. lia.
  - rewrite Hresults, andb_true_iff, Nat.ltb_lt, length_map, length_take,
      forallb_forall, Forall_forall.
    split; intros [Hlen Hall]; (split; [lia|]).
    + intros p Hp. apply Hall, in_map. by apply list_elem_of_In.
    + intros r (p & <- & Hp)%in_map_iff. by apply Hall, list_elem_of_In.
Qed.

(** The slow host passes the limit after the first file: [ctx.md] is
    loaded, the file after it is not looked at, and the result reports
    success together with the time-limit error. *)
Lemma X13_time_limit_witness :
  ∃ R,
    loadContextFiles slowHost ["ctx.md"; "gone.md"] "/w" = Returned R
    ∧ Load.success R = true
    ∧ last (Load.errors R) = Some timeoutMessage
    ∧ length (Load.files R) = 1%nat.
Proof.
  destruct (X13_time_limit slowHost ["ctx.md"; "gone.md"] "/w" 1)
    as (R & HR & Hfiles & Hlast & _ & Hsuccess).
  - cbn. lia.
  - intros j Hj. assert (j = 1%nat) as -> by lia. by vm_compute.
  - by vm_compute.
  - exists R. split; [exact HR|]. split; [|split; [exact Hlast|]].
    + apply Hsuccess. split; [lia|]. by repeat constructor.
    + by rewrite Hfiles.
Defined.

(** ** The prompt section built from the loaded context *)

Lemma filter_none {A} (p : A → bool) (l : list A) :
  Forall (λ x, p x = false) l → filter (λ x, Is_true (p x)) l = [].
Proof.
  induction 1 as [|x l Hx _ IH]; [done|].
  rewrite filter_cons, Hx. by case_decide.
Qed.

Lemma formatContextForPrompt_ends content filePaths :
  JsTrim.isBlank content = false →
  Js.endsWith (formatContextForPrompt content filePaths) content = true
  ∧ Js.startsWith (formatContextForPrompt content filePaths)
      ("## Project Context" ++ String "010" (String "010" "")) = true.
Proof.
  intros Hblank. unfold formatContextForPrompt. rewrite Hblank. cbv zeta.
  split.
  - rewrite <- !append_assoc. apply endsWith_append.
  - unfold Js.startsWith. apply prefix_spec. eauto.
Qed.

(** X14.  The prompt section is empty whenever no file contributed to the
    combined content; read the other way, a non-empty section means that
    some file loaded successfully with a non-empty text.  A section that is
    not empty opens with the [## Project Context] heading and a blank line
    and closes with the combined content, unchanged. *)
Theorem X14_prompt_section :
  ∀ (host : Host) (filePaths : list string) (cwd : string),
    ∃ R,
      loadContextFiles host filePaths cwd = Returned R
      ∧ let section :=
          formatContextForPrompt (Load.combinedContent R) filePaths in
        (Forall (λ r, contributes r = false) (Load.files R) → section = "")
        ∧ (section ≠ "" →
           ∃ r text,
             In r (Load.files R) ∧ File.success r = true
             ∧ File.content r = Some text ∧ text ≠ "")
        ∧ (section ≠ "" →
           Js.startsWith section
             ("## Project Context" ++ String "010" (String "010" "")) = true
           ∧ Js.endsWith section (Load.combinedContent R) = true).
Proof.
  intros host filePaths cwd.
  destruct (combinedContent_joined host filePaths cwd)
    as (R & HR & Hcombined).
  exists R. split; [exact HR|]. cbv zeta.
  assert (filter (λ r, Is_true (contributes r)) (Load.files R) = [] →
          formatContextForPrompt (Load.combinedContent R) filePaths = "")
    as Hnone.
  { intros Hused. rewrite Hcombined, Hused. reflexivity. }
  split; [|split].
  - intros Hall. by apply Hnone, filter_none.
  - intros Hsection.
    destruct (filter (λ r, Is_true (contributes r)) (Load.files R))
      as [|r used] eqn:Hused; [by destruct Hsection; apply Hnone|].
    assert (r ∈ filter (λ r, Is_true (contributes r)) (Load.files R))
      as [Hc Hin]%list_elem_of_filter by (rewrite Hused; left).
    apply Is_true_true in Hc. unfold contributes in Hc.
    apply andb_true_iff in Hc as [Hs Ht].
    destruct (File.content r) as [text|] eqn:Htext; [|done].
    exists r, text. split; [by apply list_elem_of_In|]. split; [done|].
    split; [done|]. intros ->. done.
  - intros Hsection.
    destruct (JsTrim.isBlank (Load.combinedContent R)) eqn:Hblank.
    + destruct Hsection. unfold formatContextForPrompt. by rewrite Hblank.
    + destruct (formatContextForPrompt_ends _ filePaths Hblank). done.
Qed.

(** ** The completion summary screen: sizes and the name column *)

Lemma hundredths_near (bytes unit : Z) :
  (0 < unit)%Z → (unit mod 2 = 0)%Z →
  (- (unit / 2) ≤ bytes * 100 - Summary.hundredths bytes unit * unit
   < unit / 2)%Z.
Proof.
  intros Hpos Heven. unfold Summary.hundredths.
  pose proof (Z.div_mod (bytes * 100 + unit / 2) unit ltac:(lia)) as Hdiv.
  pose proof (Z.mod_pos_bound (bytes * 100 + unit / 2) unit Hpos) as Hmod.
  pose proof (Z.div_mod unit 2 ltac:(lia)) as Hhalf.
  nia.
Qed.

Lemma hundredths_mono (bytes1 bytes2 unit : Z) :
  (0 < unit)%Z → (bytes1 ≤ bytes2)%Z →
  (Summary.hundredths bytes1 unit ≤ Summary.hundredths bytes2 unit)%Z.
Proof.
  intros Hpos Hle. unfold Summary.hundredths.
  apply Z.div_le_mono; lia.
Qed.

(** X15.  [formatFileSize] picks the unit by the size alone: bytes below
    1024, KB below 1024 * 1024, MB from there on.  The number shown in KB
    or MB is a number of hundredths within half a hundredth of the exact
    quotient, it is at least 1.00, it does not decrease when the size
    grows within a unit, and in KB it reaches 1024.00: the last five byte
    counts before one MB are shown as [1024.00 KB].  Sizes are integers
    below 2^53, the ones a double holds exactly. *)
Theorem X15_formatFileSize :
  ∀ bytes : Z,
    ((bytes < 1024)%Z →
     Summary.formatFileSize bytes = pretty bytes ++ " B")
    ∧ ((1024 ≤ bytes < 1024 * 1024)%Z →
       ∃ n : Z,
         Summary.formatFileSize bytes = Summary.showFixed2 n ++ " KB"
         ∧ (100 ≤ n ≤ 102400)%Z
         ∧ (-512 ≤ bytes * 100 - n * 1024 < 512)%Z
         ∧ (n = 102400 ↔ 1048571 ≤ bytes)%Z
         ∧ ∀ larger, (bytes ≤ larger < 1024 * 1024)%Z →
             ∃ m, Summary.formatFileSize larger
                  = Summary.showFixed2 m ++ " KB" ∧ (n ≤ m)%Z)
    ∧ ((1024 * 1024 ≤ bytes < 2 ^ 53)%Z →
       ∃ n : Z,
         Summary.formatFileSize bytes = Summary.showFixed2 n ++ " MB"
         ∧ (100 ≤ n)%Z
         ∧ (-524288 ≤ bytes * 100 - n * 1048576 < 524288)%Z
         ∧ ∀ larger, (bytes ≤ larger < 2 ^ 53)%Z →
             ∃ m, Summary.formatFileSize larger
                  = Summary.showFixed2 m ++ " MB" ∧ (n ≤ m)%Z)
    ∧ Summary.formatFileSize 1048575 = "1024.00 KB"
    ∧ Summary.formatFileSize 1048576 = "1.00 MB".
Proof.
  intros bytes. unfold Summary.formatFileSize.
  split; [|split; [|split; [|split; by vm_compute]]].
  - intros Hsmall. apply Z.ltb_lt in Hsmall. by rewrite Hsmall.
  - intros [Hlow Hhigh].
    apply Z.ltb_ge in Hlow as Hb1. apply Z.ltb_lt in Hhigh as Hb2.
    rewrite Hb1, Hb2. exists (Summary.hundredths bytes 1024).
    pose proof (hundredths_near bytes 1024 ltac:(lia) eq_refl) as Hnear.
    change (1024 / 2)%Z with 512%Z in Hnear.
    split; [done|]. split; [lia|]. split; [lia|]. split; [lia|].
    intros larger [Hle Hlt]. exists (Summary.hundredths larger 1024).
    split; [|by apply hundredths_mono].
    assert ((larger <? 1024)%Z = false) as -> by (apply Z.ltb_ge; lia).
    by assert ((larger <? 1024 * 1024)%Z = true) as ->
      by (apply Z.ltb_lt; lia).
  - intros [Hlow _].
    assert ((bytes <? 1024)%Z = false) as -> by (apply Z.ltb_ge; lia).
    assert ((bytes <? 1024 * 1024)%Z = false) as ->
      by (apply Z.ltb_ge; lia).
    exists (Summary.hundredths bytes (1024 * 1024)).
    pose proof (hundredths_near bytes (1024 * 1024) ltac:(lia) eq_refl)
      as Hnear.
    change (1024 * 1024 / 2)%Z with 524288%Z in Hnear.
    change (1024 * 1024)%Z with 1048576%Z in *.
    split; [done|]. split; [lia|]. split; [lia|].
    intros larger [Hle _]. exists (Summary.hundredths larger 1048576).
    split; [|by apply hundredths_mono].
    assert ((larger <? 1024)%Z = false) as -> by (apply Z.ltb_ge; lia).
    by assert ((larger <? 1048576)%Z = false) as ->
      by (apply Z.ltb_ge; lia).
Qed.

Lemma formatFileSize_unit (bytes : Z) :
  Js.endsWith (Summary.formatFileSize bytes) "B" = true.
Proof.
  unfold Summary.formatFileSize.
  change " B" with (" " ++ "B"). change " KB" with (" K" ++ "B").
  change " MB" with (" M" ++ "B").
  repeat case_match; rewrite <- append_assoc; apply endsWith_append.
Qed.

(** X16.  The size line of the output box shows [unknown size] exactly
    when the size is absent or zero: an empty output file is never shown
    as [0 B].  Every other size is shown by [formatFileSize], with its
    unit. *)
Theorem X16_size_line :
  ∀ outputFileSizeBytes : option Z,
    (Summary.sizeDisplay outputFileSizeBytes = "unknown size"
     ↔ outputFileSizeBytes = None ∨ outputFileSizeBytes = Some 0%Z)
    ∧ (∀ bytes, outputFileSizeBytes = Some bytes → bytes ≠ 0%Z →
         Summary.sizeDisplay outputFileSizeBytes
         = Summary.formatFileSize bytes
         ∧ Js.endsWith (Summary.sizeDisplay outputFileSizeBytes) "B"
           = true).
Proof.
  intros [bytes|]; cbn [Summary.sizeDisplay].
  - destruct (Z.eqb_spec bytes 0) as [->|Hne]; split.
    + split; [by right | done].
    + intros ? [= <-] Hne. done.
    + split.
      * intros Hunknown.
        pose proof (formatFileSize_unit bytes) as Hunit.
        rewrite Hunknown in Hunit. by vm_compute in Hunit.
      * intros [|[= ->]]; done.
    + intros ? [= <-] _. split; [done | apply formatFileSize_unit].
  - split; [split; [by left | done]|]. by intros.
Qed.

Lemma maxWith_spec (floor : nat) (xs : list nat) :
  (floor ≤ Summary.maxWith floor xs)%nat
  ∧ Forall (λ x, (x ≤ Summary.maxWith floor xs)%nat) xs
  ∧ (Summary.maxWith floor xs = floor
     ∨ In (Summary.maxWith floor xs) xs).
Proof.
  induction xs as [|x xs (Hfloor & Hall & Hin)].
  { cbn. split; [lia|]. split; [constructor | by left]. }
  cbn [Summary.maxWith foldr]. fold (Summary.maxWith floor xs).
  split; [lia|]. split.
  - constructor; [lia|].
    eapply Forall_impl; [exact Hall|]. cbn. intros. lia.
  - destruct (Nat.max_spec x (Summary.maxWith floor xs))
      as [[_ ->]|[_ ->]]; [|right; by left].
    destruct Hin as [->|Hin]; [by left | right; by right].
Qed.

(** X17.  The name column of the worker table is between 10 and 25 code
    units wide and as wide as the longest name in that range; the header
    cell and the name cell of every row are exactly that wide, so the
    columns after it line up.  A name that fits is shown whole, followed
    by spaces only; a longer one keeps its first [width - 1] code units
    and ends with the ellipsis.  A worker of the table has its name cut
    exactly when the name is longer than 25 code units. *)
Theorem X17_name_column :
  ∀ (workerStats : list Summary.WorkerStatistics)
    (worker : Summary.WorkerStatistics),
    let width := Summary.maxNameWidth workerStats in
    let cell := Summary.nameDisplay width worker in
    (10 ≤ width ≤ 25)%nat
    ∧ (width = 10%nat ∨ width = 25%nat
       ∨ ∃ w, In w workerStats ∧ length (Summary.name w) = width)
    ∧ length cell = width
    ∧ length (Summary.padEnd [78; 97; 109; 101] width) = width
    ∧ ((length (Summary.name worker) ≤ width)%nat →
       cell = (Summary.name worker
               ++ replicate (width - length (Summary.name worker)) 32)%list)
    ∧ ((width < length (Summary.name worker))%nat →
       cell = (take (width - 1) (Summary.name worker) ++ [8230])%list)
    ∧ (In worker workerStats →
       (length (Summary.name worker) ≤ 25)%nat →
       (length (Summary.name worker) ≤ width)%nat)
    ∧ (In worker workerStats →
       ((width < length (Summary.name worker))%nat
        ↔ (25 < length (Summary.name worker))%nat)).
Proof.
  intros workerStats worker width cell.
  destruct (maxWith_spec 10
              (map (λ w, length (Summary.name w)) workerStats))
    as (Hfloor & Hall & Hmax).
  assert (10 ≤ width ≤ 25)%nat as Hwidth
    by (unfold width, Summary.maxNameWidth; lia).
  assert (width = 10%nat ∨ width = 25%nat
          ∨ ∃ w, In w workerStats ∧ length (Summary.name w) = width)
    as Hlongest.
  { unfold width, Summary.maxNameWidth.
    destruct (Nat.min_spec 25
                (Summary.maxWith 10
                   (map (λ w, length (Summary.name w)) workerStats)))
      as [[_ ->]|[_ ->]]; [by right; left|].
    destruct Hmax as [->|(w & Hw & Hin)%in_map_iff]; [by left|].
    right; right. by exists w. }
  assert (In worker workerStats →
          (length (Summary.name worker) ≤ 25)%nat →
          (length (Summary.name worker) ≤ width)%nat) as Hfits.
  { intros Hin Hshort. rewrite Forall_forall in Hall.
    specialize (Hall (length (Summary.name worker))).
    unfold width, Summary.maxNameWidth.
    assert (length (Summary.name worker)
            ≤ Summary.maxWith 10
                (map (λ w, length (Summary.name w)) workerStats))%nat
      by (apply Hall, list_elem_of_In, in_map_iff; by exists worker).
    lia. }
  assert (length cell = width) as Hcell.
  { unfold cell, Summary.nameDisplay, Summary.padEnd.
    destruct (Nat.ltb_spec width (length (Summary.name worker))).
    - rewrite length_app, length_take. cbn [length]. lia.
    - rewrite length_app, length_replicate. lia. }
  split; [done|]. split; [done|]. split; [done|]. split.
  { unfold Summary.padEnd. rewrite length_app, length_replicate.
    cbn [length]. lia. }
  split.
  { intros Hle. unfold cell, Summary.nameDisplay, Summary.padEnd.
    by assert ((width <? length (Summary.name worker))%nat = false) as ->
      by (apply Nat.ltb_ge; lia). }
  split.
  { intros Hlt. unfold cell, Summary.nameDisplay.
    by assert ((width <? length (Summary.name worker))%nat = true) as ->
      by (apply Nat.ltb_lt; lia). }
  split; [done|].
  intros Hin. specialize (Hfits Hin). lia.
Qed.
